(** * AI-NEXUS: the orchestration core, specified against the code

    Part I is a shallow embedding of the algorithms of the multi-AI
    collaboration platform and of its WebSocket client:

    - [QualityGate]: [calculate_quality_score]
      (需求文档_多AI协作系统.md, section 4.3.3);
    - [DevLoop]: [iterative_develop] (same document, section 4.3.1);
    - [CaseMemory]: [find_similar_cases] (same document, section 4.3.2);
    - [WebSocketClient]: the reconnect and heartbeat logic of
      web_platform/frontend/src/contexts/WebSocketContext.jsx;
    - [TaskPlan]: the [DevPlan] of section 3.3.1 as the plan of the loop;
    - [RunRegistry] and [HubHeartbeat]: the server-side registry and the
      heartbeat of the event hub, which are not in the front-end sources;
    - [ClientSession], [MessageHandlers]: further notions on the client,
      and the handler table of the same file;
    - [ProjectStore], [ProjectPages], [ProjectForm]: the reducer and the
      action creators of contexts/ProjectContext.jsx, the chat of
      pages/DevelopmentMonitor.jsx and the toggles of
      pages/ProjectCreation.jsx, which call the WebSocket context;
    - [ApiClient]: the token, the interceptors and the session calls of
      services/api.js;
    - [LoopLog]: further notions on the score and the loop.

    Part II holds the properties, one module of facts per module of
    Part I. *)

From Stdlib Require Import ZArith QArith Lia.
From stdpp Require Import gmap strings list fin_maps sorting.

Local Open Scope string_scope.
Local Open Scope list_scope.
Local Open Scope Z_scope.

(** * Part I: the embedding *)

(** ** Quality Gate *)

Module QualityGate.

(** A finding is a Python dict with text fields ([kind], [severity],
    [message], ...); the metrics are a dict from metric name to a number. *)
Abbreviation Issue := (gmap string string).
Abbreviation Metrics := (gmap string Q).

(** [issue.get('severity', 'low')] *)
Definition severity_of (issue : Issue) : string :=
  default "low" (issue !! "severity").

(** One turn of the deduction loop. [base_score] is a float that only ever
    holds whole numbers, so it is an integer here. *)
Definition deduct (base_score : Z) (issue : Issue) : Z :=
  let severity := severity_of issue in
  if String.eqb severity "critical" then base_score - 20
  else if String.eqb severity "high" then base_score - 10
  else if String.eqb severity "medium" then base_score - 5
  else base_score - 2.

(** One turn of the reward loop over [metrics.items()]. A metric value is
    any number, here a rational. *)
Definition reward (base_score : Z) (item : string * Q) : Z :=
  let '(metric_name, value) := item in
  if String.eqb metric_name "docstring_coverage" && Qle_bool (80 # 1) value
  then base_score + 5
  else if String.eqb metric_name "test_coverage" && Qle_bool (90 # 1) value
  then base_score + 10
  else base_score.

(** The function over an explicit enumeration of the metric items: a Python
    dict is iterated in insertion order, which the map does not record. *)
Definition score_of_items (issues : list Issue) (items : list (string * Q)) : Z :=
  let base_score := 100 in
  let base_score := foldl deduct base_score issues in
  let base_score := foldl reward base_score items in
  Z.max 0 (Z.min 100 base_score).

Definition calculate_quality_score (issues : list Issue) (metrics : Metrics) : Z :=
  score_of_items issues (map_to_list metrics).

(** *** The scoring policy, in the words of the specification *)

Definition count_severity (s : string) (issues : list Issue) : Z :=
  Z.of_nat (length (filter (λ i, severity_of i = s) issues)).

Definition metric_reaches (name : string) (bar : Q) (metrics : Metrics) : bool :=
  match metrics !! name with
  | Some value => Qle_bool bar value
  | None => false
  end.

Definition rubric_bonus (metrics : Metrics) : Z :=
  (if metric_reaches "docstring_coverage" (80 # 1) metrics then 5 else 0)
  + (if metric_reaches "test_coverage" (90 # 1) metrics then 10 else 0).

Definition clamp (x : Z) : Z := Z.max 0 (Z.min 100 x).

Definition policy_score (issues : list Issue) (metrics : Metrics) : Z :=
  clamp (100
         - 20 * count_severity "critical" issues
         - 10 * count_severity "high" issues
         - 5 * count_severity "medium" issues
         - 2 * count_severity "low" issues
         + rubric_bonus metrics).

(** The four severities of a Finding. A dict without a [severity] key counts
    as [low], as [severity_of] reads it. *)
Definition known_severity (issue : Issue) : Prop :=
  severity_of issue ∈ ["critical"; "high"; "medium"; "low"].

(** *** What one finding costs and one metric earns *)

Definition penalty (issue : Issue) : Z := 0 - deduct 0 issue.

Definition gain (item : string * Q) : Z := reward 0 item.

Definition total_gain (items : list (string * Q)) : Z :=
  foldr (λ it acc, gain it + acc) 0 items.

(** *** Sample findings and metrics *)

Definition finding (severity : string) : Issue := {[ "severity" := severity ]}.

Definition sample_issues : list Issue :=
  [finding "critical"; finding "low"; ∅; finding "medium"; finding "high"].

Definition sample_metrics : Metrics :=
  {[ "test_coverage" := 95 # 1; "docstring_coverage" := 161 # 2;
     "complexity" := 7 # 1 ]}.

End QualityGate.

(** ** The iterative development loop *)

Module DevLoop.
Import QualityGate.

(** [FilesDict]: file path to file body. [TestResult] keeps the counting
    fields of the dataclass of section 3.3.1; the loop reads [passed]. *)
Abbreviation FilesDict := (gmap string string).

Record TestResult := {
  passed : bool;
  total_tests : nat;
  passed_tests : nat
}.

(** Modelled from the spec: the quality report that [analyze_quality]
    returns, whose class the source does not define. It carries what the
    Quality Gate scores: the findings and the metrics. *)
Record QualityReport := {
  report_issues : list Issue;
  report_metrics : Metrics
}.

Definition report_score (r : QualityReport) : Z :=
  calculate_quality_score (report_issues r) (report_metrics r).

Definition blocking (issue : Issue) : bool :=
  String.eqb (severity_of issue) "critical" || String.eqb (severity_of issue) "high".

(** Modelled from the spec: the [acceptable] attribute of the quality report,
    which [iterative_develop] reads and the source does not define. The retry
    decision of the specification accepts a version when its quality score
    reaches the threshold and it has no critical and no high finding. *)
Definition acceptable (threshold : Z) (r : QualityReport) : bool :=
  (threshold <=? report_score r) && forallb (λ i, negb (blocking i)) (report_issues r).

Definition default_threshold : Z := 80.
Definition default_max_iterations : nat := 5.

(** The collaborators of the loop. The workers are opaque services: they
    read and change a [World] the loop does not look into. The plan is the
    ambient state behind [current_task], [is_complete], [mark_task_complete]
    and [add_fixes_to_plan]; only these calls touch it. *)
Class Workers (World Plan Task : Type) := {
  current_task : Plan → Task;
  is_complete : Plan → bool;
  mark_task_complete : Plan → Plan;
  add_fixes_to_plan : list Issue → Plan → Plan;
  generate_with_supervision : Task → World → FilesDict * World;
  execute_tests : FilesDict → World → TestResult * World;
  analyze_quality : FilesDict → World → QualityReport * World;
  analyze_issues : TestResult → QualityReport → World → list Issue * World
}.

(** What one iteration produced; [history] below is a ghost log of them. *)
Record Evaluation := {
  new_files : FilesDict;
  version_files : FilesDict;
  version_tests : TestResult;
  version_quality : QualityReport
}.

Definition gate (threshold : Z) (e : Evaluation) : bool :=
  passed (version_tests e) && acceptable threshold (version_quality e).

Section Loop.
Context {World Plan Task : Type} `{!Workers World Plan Task}.
Variable threshold : Z.

Record LoopState := {
  current_files : FilesDict;
  iteration : nat;
  plan : Plan;
  world : World;
  history : list Evaluation
}.

(** Steps 1 to 3 of the loop body: generate, merge, test, analyse.
    [current_files.update(new_files)] lets the new files win, as the
    left-biased union does. *)
Definition evaluate (s : LoopState) : Evaluation * World :=
  let '(new, w1) := generate_with_supervision (current_task (plan s)) (world s) in
  let files := new ∪ current_files s in
  let '(test_result, w2) := execute_tests files w1 in
  let '(quality_report, w3) := analyze_quality files w2 in
  ({| new_files := new; version_files := files;
      version_tests := test_result; version_quality := quality_report |}, w3).

(** Step 4 and the increment. *)
Definition loop_body (s : LoopState) : LoopState :=
  let '(e, w3) := evaluate s in
  if gate threshold e then
    {| current_files := version_files e;
       iteration := S (iteration s);
       plan := mark_task_complete (plan s);
       world := w3;
       history := history s ++ [e] |}
  else
    let '(issues, w4) := analyze_issues (version_tests e) (version_quality e) w3 in
    {| current_files := version_files e;
       iteration := S (iteration s);
       plan := add_fixes_to_plan issues (plan s);
       world := w4;
       history := history s ++ [e] |}.

Definition loop_cond (max_iterations : nat) (s : LoopState) : bool :=
  (iteration s <? max_iterations)%nat && negb (is_complete (plan s)).

(** The [while] loop, by fuel; [None] is running out of fuel, which
    [run_loop] never does (see [run_loop_total]). *)
Fixpoint while_loop (fuel max_iterations : nat) (s : LoopState) : option LoopState :=
  match fuel with
  | O => None
  | S fuel' =>
      if loop_cond max_iterations s
      then while_loop fuel' max_iterations (loop_body s)
      else Some s
  end.

(** The state at loop entry: no files, iteration 0, and the plan and the
    world as [iterative_develop] finds them. *)
Definition initial (p : Plan) (w : World) : LoopState :=
  {| current_files := ∅; iteration := 0; plan := p; world := w; history := [] |}.

Definition run_loop (max_iterations : nat) (p : Plan) (w : World) : option LoopState :=
  while_loop (S max_iterations) max_iterations (initial p w).

Definition iterative_develop {Req : Type} (requirements : Req)
    (max_iterations : nat) (p : Plan) (w : World) : option FilesDict :=
  current_files <$> run_loop max_iterations p w.

(** The findings that a failed iteration hands to [add_fixes_to_plan]. *)
Definition fixes_of (s : LoopState) : list Issue :=
  let '(e, w3) := evaluate s in
  (analyze_issues (version_tests e) (version_quality e) w3).1.

(** The files after the iterations of a log, each merged over the ones before. *)
Definition merged (h : list Evaluation) : FilesDict :=
  foldl (λ acc e, new_files e ∪ acc) ∅ h.

(** What the ghost log says about the state. *)
Definition coherent (s : LoopState) : Prop :=
  length (history s) = iteration s
  ∧ current_files s = merged (history s)
  ∧ current_files s = from_option version_files ∅ (last (history s)).

End Loop.

(** *** A sample run

    A plan with one task, and workers that produce a fair first draft, a bad
    second draft and a clean third draft. The world counts the drafts. *)

Record SimplePlan := { complete : bool; fixes : list Issue }.

Definition draft (w : nat) : string :=
  match w with
  | O => "draft 1"
  | S O => "draft 2"
  | _ => "draft 3"
  end.

Definition review (files : FilesDict) : QualityReport :=
  if bool_decide (files !! "app.py" = Some "draft 1") then
    {| report_issues := [finding "medium"]; report_metrics := ∅ |}
  else if bool_decide (files !! "app.py" = Some "draft 2") then
    {| report_issues := replicate 3 (finding "critical"); report_metrics := ∅ |}
  else
    {| report_issues := []; report_metrics := {[ "test_coverage" := 95 # 1 ]} |}.

Definition run_tests (files : FilesDict) : TestResult :=
  if bool_decide (files !! "app.py" = Some "draft 3")
  then {| passed := true; total_tests := 4; passed_tests := 4 |}
  else {| passed := false; total_tests := 4; passed_tests := 1 |}.

#[export] Instance sample_workers : Workers nat SimplePlan (list Issue) := {|
  current_task p := fixes p;
  is_complete p := complete p;
  mark_task_complete p := {| complete := true; fixes := fixes p |};
  add_fixes_to_plan issues p := {| complete := complete p; fixes := fixes p ++ issues |};
  generate_with_supervision task w := ({[ "app.py" := draft w ]}, S w);
  execute_tests files w := (run_tests files, w);
  analyze_quality files w := (review files, w);
  analyze_issues test_result quality_report w := (report_issues quality_report, w)
|}.

Definition sample_plan : SimplePlan := {| complete := false; fixes := [] |}.

(** The best-scoring version of a log; the earlier one on a tie. *)
Definition best_version (h : list Evaluation) : option Evaluation :=
  foldl (λ best e,
           match best with
           | Some b =>
               if report_score (version_quality b) <? report_score (version_quality e)
               then Some e else Some b
           | None => Some e
           end) None h.

Definition sample_start : LoopState (World := nat) (Plan := SimplePlan) :=
  initial sample_plan 0%nat.

(** Where the sample run stands after two iterations, when only two are
    allowed. *)
Definition exhausted_state : LoopState (World := nat) (Plan := SimplePlan) :=
  {| current_files := {[ "app.py" := "draft 2" ]};
     iteration := 2;
     plan := {| complete := false;
                fixes := finding "medium" :: replicate 3 (finding "critical") |};
     world := 2%nat;
     history :=
       [ {| new_files := {[ "app.py" := "draft 1" ]};
            version_files := {[ "app.py" := "draft 1" ]};
            version_tests := run_tests {[ "app.py" := "draft 1" ]};
            version_quality := review {[ "app.py" := "draft 1" ]} |};
         {| new_files := {[ "app.py" := "draft 2" ]};
            version_files := {[ "app.py" := "draft 2" ]};
            version_tests := run_tests {[ "app.py" := "draft 2" ]};
            version_quality := review {[ "app.py" := "draft 2" ]} |} ] |}.

End DevLoop.

(** ** A plan with several tasks

    [DevPlan] of section 3.3.1 with its [tasks] and its
    [current_task_index]; [plan_id], [requirements] and
    [completion_percentage] play no part in the loop. *)

Module TaskPlan.
Import QualityGate DevLoop.

(** A task is a Python dict with text fields. *)
Abbreviation PlanTask := (gmap string string).

Record DevPlan := {
  tasks : list PlanTask;
  current_task_index : nat
}.

(** The four helpers of [iterative_develop], which the source calls and
    does not define, are read by their names on a [DevPlan]. *)

(** Modelled from the spec: [current_task], the task at the index; an
    empty task past the end. *)
Definition task_at (p : DevPlan) : PlanTask :=
  default ∅ (tasks p !! current_task_index p).

(** Modelled from the spec: [is_complete], which holds when the index is
    past the last task. *)
Definition all_done (p : DevPlan) : bool :=
  (length (tasks p) <=? current_task_index p)%nat.

(** Modelled from the spec: [mark_task_complete], which moves the index to
    the next task. *)
Definition next_task (p : DevPlan) : DevPlan :=
  {| tasks := tasks p; current_task_index := S (current_task_index p) |}.

Definition fix_task (issue : Issue) : PlanTask := <["kind" := "fix"]> issue.

(** Modelled from the spec: [add_fixes_to_plan], which puts a fix task for
    every finding in front of the current task. *)
Definition with_fixes (issues : list Issue) (p : DevPlan) : DevPlan :=
  {| tasks := take (current_task_index p) (tasks p)
              ++ (fix_task <$> issues)
              ++ drop (current_task_index p) (tasks p);
     current_task_index := current_task_index p |}.

(** Workers that never fail: every task yields its file, the tests pass
    and the review finds nothing. The world counts the drafts. *)
#[export] Instance steady_workers : Workers nat DevPlan PlanTask := {|
  current_task := task_at;
  is_complete := all_done;
  mark_task_complete := next_task;
  add_fixes_to_plan := with_fixes;
  generate_with_supervision task w :=
    ({[ default "main.py" (task !! "file") := "done" ]}, S w);
  execute_tests files w :=
    ({| passed := true; total_tests := 1; passed_tests := 1 |}, w);
  analyze_quality files w := ({| report_issues := []; report_metrics := ∅ |}, w);
  analyze_issues test_result quality_report w := (report_issues quality_report, w)
|}.



End TaskPlan.

(** ** The WebSocket client

    [WebSocketProvider] of contexts/WebSocketContext.jsx as a state machine.
    The state holds the React state of the component, its refs, and what the
    browser keeps for it: the sockets it created, its timeouts and its
    intervals. The inputs are what the browser and React call back with.

    A function component is called once per render, and each call binds
    [reconnectAttempts], [isAuthenticated] and [user] afresh as constants.
    [setReconnectAttempts] does not assign to such a binding; it stores the
    new value in the React state for the next render. The functions [connect],
    [scheduleReconnect] and the socket handlers are closures over the bindings
    of the render that created them. A [Render] is that set of bindings; every
    socket and every timeout records the render its callbacks close over.
    Refs, by contrast, are shared objects: all closures read the same
    [websocketRef.current]. *)

Module WebSocketClient.

Definition RECONNECT_INTERVAL : Z := 5000.
Definition HEARTBEAT_INTERVAL : Z := 30000.
Definition MAX_RECONNECT_ATTEMPTS : nat := 10.

Inductive ConnectionStatus :=
  Disconnected | Connecting | Connected | Reconnecting | ConnectionError.

Inductive ReadyState := CONNECTING | OPEN | CLOSING | CLOSED.

#[export] Instance ReadyState_eq_dec : EqDecision ReadyState.
Proof. solve_decision. Defined.

(** A parsed JSON message: an object with text fields. *)
Abbreviation Message := (gmap string string).

(** [showNotification]: the severity and a tag for the text. *)
Inductive Notice :=
  | NoticeConnected | NoticeConnectionError | NoticeReconnectGaveUp
  | NoticeSendFailed | NoticeFromServer (type : string).

(** [seen_userId] is [None] when [user?.id] is missing or falsy. *)
Record Render := {
  seen_reconnectAttempts : nat;
  seen_isAuthenticated : bool;
  seen_userId : option string
}.

(** A [WebSocket] object: its state, the render whose [connect] installed
    its handlers, and what was sent through it. *)
Record Socket := {
  readyState : ReadyState;
  handlers : Render;
  outbox : list Message
}.

(** A [setTimeout] timer: its delay in milliseconds, the render whose
    [scheduleReconnect] armed it, and whether it is still to fire. *)
Record Timeout := {
  delay : Z;
  callback : Render;
  pending : bool
}.

(** The React state ([isConnected] to [messageHistory]), the refs (an index
    into the sockets, timeouts or intervals, or [None] for [null]), what the
    browser holds ([sockets], [timeouts], and [intervals] with [true] for an
    armed one), and the notifications shown. *)
Record Client := {
  isConnected : bool;
  connectionStatus : ConnectionStatus;
  reconnectAttempts : nat;
  lastMessage : option Message;
  messageHistory : list Message;
  websocketRef : option nat;
  reconnectTimeoutRef : option nat;
  heartbeatIntervalRef : option nat;
  sockets : list Socket;
  timeouts : list Timeout;
  intervals : list bool;
  notifications : list Notice
}.

(** Field updates. *)
Definition set_isConnected (v : bool) (c : Client) : Client :=
  {| isConnected := v; connectionStatus := connectionStatus c;
     reconnectAttempts := reconnectAttempts c; lastMessage := lastMessage c;
     messageHistory := messageHistory c; websocketRef := websocketRef c;
     reconnectTimeoutRef := reconnectTimeoutRef c;
     heartbeatIntervalRef := heartbeatIntervalRef c; sockets := sockets c;
     timeouts := timeouts c; intervals := intervals c;
     notifications := notifications c |}.

Definition set_connectionStatus (v : ConnectionStatus) (c : Client) : Client :=
  {| isConnected := isConnected c; connectionStatus := v;
     reconnectAttempts := reconnectAttempts c; lastMessage := lastMessage c;
     messageHistory := messageHistory c; websocketRef := websocketRef c;
     reconnectTimeoutRef := reconnectTimeoutRef c;
     heartbeatIntervalRef := heartbeatIntervalRef c; sockets := sockets c;
     timeouts := timeouts c; intervals := intervals c;
     notifications := notifications c |}.

Definition set_reconnectAttempts (v : nat) (c : Client) : Client :=
  {| isConnected := isConnected c; connectionStatus := connectionStatus c;
     reconnectAttempts := v; lastMessage := lastMessage c;
     messageHistory := messageHistory c; websocketRef := websocketRef c;
     reconnectTimeoutRef := reconnectTimeoutRef c;
     heartbeatIntervalRef := heartbeatIntervalRef c; sockets := sockets c;
     timeouts := timeouts c; intervals := intervals c;
     notifications := notifications c |}.

Definition set_lastMessage (v : option Message) (c : Client) : Client :=
  {| isConnected := isConnected c; connectionStatus := connectionStatus c;
     reconnectAttempts := reconnectAttempts c; lastMessage := v;
     messageHistory := messageHistory c; websocketRef := websocketRef c;
     reconnectTimeoutRef := reconnectTimeoutRef c;
     heartbeatIntervalRef := heartbeatIntervalRef c; sockets := sockets c;
     timeouts := timeouts c; intervals := intervals c;
     notifications := notifications c |}.

Definition set_messageHistory (v : list Message) (c : Client) : Client :=
  {| isConnected := isConnected c; connectionStatus := connectionStatus c;
     reconnectAttempts := reconnectAttempts c; lastMessage := lastMessage c;
     messageHistory := v; websocketRef := websocketRef c;
     reconnectTimeoutRef := reconnectTimeoutRef c;
     heartbeatIntervalRef := heartbeatIntervalRef c; sockets := sockets c;
     timeouts := timeouts c; intervals := intervals c;
     notifications := notifications c |}.

Definition set_websocketRef (v : option nat) (c : Client) : Client :=
  {| isConnected := isConnected c; connectionStatus := connectionStatus c;
     reconnectAttempts := reconnectAttempts c; lastMessage := lastMessage c;
     messageHistory := messageHistory c; websocketRef := v;
     reconnectTimeoutRef := reconnectTimeoutRef c;
     heartbeatIntervalRef := heartbeatIntervalRef c; sockets := sockets c;
     timeouts := timeouts c; intervals := intervals c;
     notifications := notifications c |}.

Definition set_reconnectTimeoutRef (v : option nat) (c : Client) : Client :=
  {| isConnected := isConnected c; connectionStatus := connectionStatus c;
     reconnectAttempts := reconnectAttempts c; lastMessage := lastMessage c;
     messageHistory := messageHistory c; websocketRef := websocketRef c;
     reconnectTimeoutRef := v;
     heartbeatIntervalRef := heartbeatIntervalRef c; sockets := sockets c;
     timeouts := timeouts c; intervals := intervals c;
     notifications := notifications c |}.

Definition set_heartbeatIntervalRef (v : option nat) (c : Client) : Client :=
  {| isConnected := isConnected c; connectionStatus := connectionStatus c;
     reconnectAttempts := reconnectAttempts c; lastMessage := lastMessage c;
     messageHistory := messageHistory c; websocketRef := websocketRef c;
     reconnectTimeoutRef := reconnectTimeoutRef c; heartbeatIntervalRef := v;
     sockets := sockets c; timeouts := timeouts c; intervals := intervals c;
     notifications := notifications c |}.

Definition set_sockets (v : list Socket) (c : Client) : Client :=
  {| isConnected := isConnected c; connectionStatus := connectionStatus c;
     reconnectAttempts := reconnectAttempts c; lastMessage := lastMessage c;
     messageHistory := messageHistory c; websocketRef := websocketRef c;
     reconnectTimeoutRef := reconnectTimeoutRef c;
     heartbeatIntervalRef := heartbeatIntervalRef c; sockets := v;
     timeouts := timeouts c; intervals := intervals c;
     notifications := notifications c |}.

Definition set_timeouts (v : list Timeout) (c : Client) : Client :=
  {| isConnected := isConnected c; connectionStatus := connectionStatus c;
     reconnectAttempts := reconnectAttempts c; lastMessage := lastMessage c;
     messageHistory := messageHistory c; websocketRef := websocketRef c;
     reconnectTimeoutRef := reconnectTimeoutRef c;
     heartbeatIntervalRef := heartbeatIntervalRef c; sockets := sockets c;
     timeouts := v; intervals := intervals c;
     notifications := notifications c |}.

Definition set_intervals (v : list bool) (c : Client) : Client :=
  {| isConnected := isConnected c; connectionStatus := connectionStatus c;
     reconnectAttempts := reconnectAttempts c; lastMessage := lastMessage c;
     messageHistory := messageHistory c; websocketRef := websocketRef c;
     reconnectTimeoutRef := reconnectTimeoutRef c;
     heartbeatIntervalRef := heartbeatIntervalRef c; sockets := sockets c;
     timeouts := timeouts c; intervals := v;
     notifications := notifications c |}.

Definition set_notifications (v : list Notice) (c : Client) : Client :=
  {| isConnected := isConnected c; connectionStatus := connectionStatus c;
     reconnectAttempts := reconnectAttempts c; lastMessage := lastMessage c;
     messageHistory := messageHistory c; websocketRef := websocketRef c;
     reconnectTimeoutRef := reconnectTimeoutRef c;
     heartbeatIntervalRef := heartbeatIntervalRef c; sockets := sockets c;
     timeouts := timeouts c; intervals := intervals c; notifications := v |}.

Definition showNotification (n : Notice) (c : Client) : Client :=
  set_notifications (notifications c ++ [n]) c.

Definition initial_client : Client :=
  {| isConnected := false; connectionStatus := Disconnected;
     reconnectAttempts := 0; lastMessage := None; messageHistory := [];
     websocketRef := None; reconnectTimeoutRef := None;
     heartbeatIntervalRef := None; sockets := []; timeouts := [];
     intervals := []; notifications := [] |}.

(** The bindings a render made now would have. *)
Definition render (isAuthenticated : bool) (userId : option string) (c : Client) : Render :=
  {| seen_reconnectAttempts := reconnectAttempts c;
     seen_isAuthenticated := isAuthenticated;
     seen_userId := userId |}.

(** [websocketRef.current?.readyState === WebSocket.OPEN] *)
Definition current_socket_open (c : Client) : bool :=
  match websocketRef c with
  | Some id =>
      match sockets c !! id with
      | Some sock => bool_decide (readyState sock = OPEN)
      | None => false
      end
  | None => false
  end.

(** [setInterval] arms a new interval and the ref points to it. *)
Definition startHeartbeat (c : Client) : Client :=
  set_heartbeatIntervalRef (Some (length (intervals c)))
    (set_intervals (intervals c ++ [true]) c).

Definition stopHeartbeat (c : Client) : Client :=
  match heartbeatIntervalRef c with
  | Some id =>
      set_heartbeatIntervalRef None (set_intervals (<[id := false]> (intervals c)) c)
  | None => c
  end.

Definition clear_timeout (t : Timeout) : Timeout :=
  {| delay := delay t; callback := callback t; pending := false |}.

Definition clearReconnectTimeout (c : Client) : Client :=
  match reconnectTimeoutRef c with
  | Some id =>
      set_reconnectTimeoutRef None
        (set_timeouts (alter clear_timeout id (timeouts c)) c)
  | None => c
  end.

Definition push (m : Message) (sock : Socket) : Socket :=
  {| readyState := readyState sock; handlers := handlers sock;
     outbox := outbox sock ++ [m] |}.

Definition sendMessage (m : Message) (c : Client) : bool * Client :=
  match websocketRef c with
  | Some id =>
      if current_socket_open c
      then (true, set_sockets (alter (push m) id (sockets c)) c)
      else (false, showNotification NoticeSendFailed c)
  | None => (false, showNotification NoticeSendFailed c)
  end.

(** [connect], as created in render [r]: the new socket gets handlers that
    close over [r]. *)
Definition connect (r : Render) (c : Client) : Client :=
  if negb (seen_isAuthenticated r) || negb (bool_decide (is_Some (seen_userId r)))
  then c
  else if current_socket_open c then c
  else
    let c := set_connectionStatus Connecting c in
    let sock := {| readyState := CONNECTING; handlers := r; outbox := [] |} in
    set_websocketRef (Some (length (sockets c))) (set_sockets (sockets c ++ [sock]) c).

(** [scheduleReconnect], as created in render [r]: the check and the delay
    read the [reconnectAttempts] of [r]; the functional update
    [setReconnectAttempts(prev => prev + 1)] acts on the React state. *)
Definition scheduleReconnect (r : Render) (c : Client) : Client :=
  if (MAX_RECONNECT_ATTEMPTS <=? seen_reconnectAttempts r)%nat
  then showNotification NoticeReconnectGaveUp c
  else
    let c := set_connectionStatus Reconnecting c in
    let c := set_reconnectAttempts (reconnectAttempts c + 1)%nat c in
    let delay :=
      Z.min (RECONNECT_INTERVAL * 2 ^ Z.of_nat (seen_reconnectAttempts r)) 30000 in
    let timer := {| delay := delay; callback := r; pending := true |} in
    set_reconnectTimeoutRef (Some (length (timeouts c)))
      (set_timeouts (timeouts c ++ [timer]) c).

Definition onopen (r : Render) (c : Client) : Client :=
  let c := set_isConnected true c in
  let c := set_connectionStatus Connected c in
  let c := set_reconnectAttempts 0 c in
  let c := startHeartbeat c in
  showNotification NoticeConnected c.

Definition onclose (r : Render) (code : Z) (c : Client) : Client :=
  let c := set_isConnected false c in
  let c := set_connectionStatus Disconnected c in
  let c := stopHeartbeat c in
  if negb (code =? 1000) && (seen_reconnectAttempts r <? MAX_RECONNECT_ATTEMPTS)%nat
  then scheduleReconnect r c
  else c.

Definition onerror (r : Render) (c : Client) : Client :=
  showNotification NoticeConnectionError (set_connectionStatus ConnectionError c).

(** The built-in part of [handleMessage]: the [switch] on the type. The
    handlers that pages register act on the pages' own state. *)
Definition handleMessage (message : Message) (c : Client) : Client :=
  match message !! "type" with
  | Some type =>
      if bool_decide (type ∈ ["error_notification"; "system_announcement";
                              "ai_status_update"; "frontend_preview_ready";
                              "project_created"; "development_started";
                              "final_test_completed"])
      then showNotification (NoticeFromServer type) c
      else c
  | None => c
  end.

(** [event.data] is [Some message] when [JSON.parse] succeeds. *)
Definition onmessage (r : Render) (data : option Message) (c : Client) : Client :=
  match data with
  | Some message =>
      let c := set_lastMessage (Some message) c in
      let prev := messageHistory c in
      let c := set_messageHistory (drop (length prev - 99) prev ++ [message]) c in
      handleMessage message c
  | None => c
  end.

(** [close(1000, ...)]: the socket starts closing; its close event comes
    later, as a [SocketClose] input. *)
Definition close_socket (sock : Socket) : Socket :=
  {| readyState := if bool_decide (readyState sock = CLOSED) then CLOSED else CLOSING;
     handlers := handlers sock; outbox := outbox sock |}.

Definition disconnect (c : Client) : Client :=
  let c :=
    match websocketRef c with
    | Some id =>
        set_websocketRef None (set_sockets (alter close_socket id (sockets c)) c)
    | None => c
    end in
  let c := stopHeartbeat c in
  let c := clearReconnectTimeout c in
  set_connectionStatus Disconnected (set_isConnected false c).

(** The keepalive message; its time stamp is left out. *)
Definition ping : Message := {[ "type" := "ping" ]}.

(** The [setInterval] callback of [startHeartbeat]. *)
Definition heartbeat_tick (c : Client) : Client :=
  if current_socket_open c then (sendMessage ping c).2 else c.

(** *** The callbacks

    [EffectRun] is the body of the effect on [[isAuthenticated, user?.id]],
    run by React after a render in which they changed; [EffectCleanup] is its
    cleanup. The [Context] inputs are a page calling [connect], [disconnect]
    or [sendMessage] of the context value, which are those of the latest
    render. The socket, timeout and interval inputs are the browser calling
    the handler that was installed, with the bindings of its render. *)

Inductive Input :=
  | EffectRun (isAuthenticated : bool) (userId : option string)
  | EffectCleanup
  | ContextConnect (isAuthenticated : bool) (userId : option string)
  | ContextDisconnect
  | ContextSend (message : Message)
  | SocketOpen (id : nat)
  | SocketMessage (id : nat) (data : option Message)
  | SocketError (id : nat)
  | SocketClose (id : nat) (code : Z)
  | TimeoutFire (id : nat)
  | IntervalFire (id : nat).

Definition set_readyState (st : ReadyState) (sock : Socket) : Socket :=
  {| readyState := st; handlers := handlers sock; outbox := outbox sock |}.

Definition step (c : Client) (i : Input) : Client :=
  match i with
  | EffectRun isAuthenticated userId =>
      let r := render isAuthenticated userId c in
      if isAuthenticated && bool_decide (is_Some userId)
      then connect r c
      else disconnect c
  | EffectCleanup => disconnect c
  | ContextConnect isAuthenticated userId =>
      connect (render isAuthenticated userId c) c
  | ContextDisconnect => disconnect c
  | ContextSend message => (sendMessage message c).2
  | SocketOpen id =>
      match sockets c !! id with
      | Some sock =>
          if bool_decide (readyState sock = CONNECTING)
          then onopen (handlers sock)
                 (set_sockets (alter (set_readyState OPEN) id (sockets c)) c)
          else c
      | None => c
      end
  | SocketMessage id data =>
      match sockets c !! id with
      | Some sock =>
          if bool_decide (readyState sock = OPEN)
          then onmessage (handlers sock) data c
          else c
      | None => c
      end
  | SocketError id =>
      match sockets c !! id with
      | Some sock =>
          if bool_decide (readyState sock = CLOSED) then c
          else onerror (handlers sock) c
      | None => c
      end
  | SocketClose id code =>
      match sockets c !! id with
      | Some sock =>
          if bool_decide (readyState sock = CLOSED) then c
          else onclose (handlers sock) code
                 (set_sockets (alter (set_readyState CLOSED) id (sockets c)) c)
      | None => c
      end
  | TimeoutFire id =>
      match timeouts c !! id with
      | Some t =>
          if pending t
          then connect (callback t)
                 (set_timeouts (alter clear_timeout id (timeouts c)) c)
          else c
      | None => c
      end
  | IntervalFire id =>
      match intervals c !! id with
      | Some true => heartbeat_tick c
      | _ => c
      end
  end.

Definition run (inputs : list Input) (c : Client) : Client := foldl step c inputs.

(** The delay the code comments promise for the attempt numbered [n]. *)
Definition backoff (n : nat) : Z := Z.min (RECONNECT_INTERVAL * 2 ^ Z.of_nat n) 30000.

(** An authenticated user mounts the page; the server is down, so each of
    the first [n] sockets closes abnormally and its reconnect timer fires. *)
Definition outage (n : nat) : list Input :=
  EffectRun true (Some "u1")
  :: flat_map (λ i, [SocketClose i 1006; TimeoutFire i]) (seq 0 n).

Definition pings_sent (id : nat) (c : Client) : nat :=
  match sockets c !! id with
  | Some sock => length (filter (λ m, m = ping) (outbox sock))
  | None => 0
  end.

Definition is_tick (hb : nat) (i : Input) : bool :=
  match i with
  | IntervalFire id => bool_decide (id = hb)
  | _ => false
  end.

Definition ticks (hb : nat) (inputs : list Input) : nat :=
  length (filter (λ i, is_tick hb i) inputs).

(** *** Notions for the properties *)

(** The timer that [scheduleReconnect] arms for the closures of render [r]. *)
Definition reconnect_timer (r : Render) : Timeout :=
  {| delay := backoff (seen_reconnectAttempts r); callback := r; pending := true |}.

(** Every socket and every timeout of the client closes over render [r]. *)
Definition owned_by (r : Render) (c : Client) : Prop :=
  Forall (λ sock, handlers sock = r) (sockets c)
  ∧ Forall (λ t, callback t = r ∧ delay t = backoff (seen_reconnectAttempts r))
      (timeouts c).

(** The inputs that run [connect] with the bindings of a new render. *)
Definition is_effect (i : Input) : bool :=
  match i with
  | EffectRun _ _ | ContextConnect _ _ => true
  | _ => false
  end.

(** A connection that is up: marked connected, with its socket open and its
    heartbeat interval armed. *)
Definition live_connection (id hb : nat) (c : Client) : Prop :=
  isConnected c = true
  ∧ connectionStatus c = Connected
  ∧ websocketRef c = Some id
  ∧ (∃ sock, sockets c !! id = Some sock ∧ readyState sock = OPEN)
  ∧ heartbeatIntervalRef c = Some hb
  ∧ intervals c !! hb = Some true.

(** The heartbeat interval fires, or a message arrives: nothing else, and
    in particular no close event. The messages need not be pongs. *)
Definition quiet (id hb : nat) (i : Input) : Prop :=
  i = IntervalFire hb ∨ ∃ data, i = SocketMessage id data.

(** The client once the page is mounted for user [u1] and the socket has
    opened. *)
Definition connected_client : Client :=
  run [EffectRun true (Some "u1"); SocketOpen 0] initial_client.

End WebSocketClient.

(** ** Case memory: similar-case retrieval *)

Module CaseMemory.

(** Modelled from the spec: a Case, one archived run: request fingerprint
    (its keywords), when it was recorded, final quality score, success flag,
    iterations used. The source passes cases around without defining them. *)
Record Case := {
  fingerprint : list string;
  recorded_at : nat;
  final_quality_score : Z;
  success : bool;
  elapsed_iterations : nat
}.

(** Modelled from the spec: the keyword overlap between the request and a
    stored fingerprint. *)
Definition keyword_overlap (keywords : list string) (c : Case) : nat :=
  length (filter (λ k, k ∈ fingerprint c) keywords).

(** The collaborators of [find_similar_cases]: the three helpers it calls,
    and how keyword overlap and recency combine into one similarity score
    (the specification names the two ingredients and gives no formula). *)
Class Memory (Ctx : Type) := {
  extract_keywords : Ctx → list string;
  find_similar_events : list string → list Case;
  find_similar_knowledge : list string → list Case;
  combine : nat → nat → Z
}.

Section Retrieval.
Context {Ctx : Type} `{!Memory Ctx}.

Definition similarity (context : Ctx) (c : Case) : Z :=
  combine (keyword_overlap (extract_keywords context) c) (recorded_at c).

(** Modelled from the spec: the ranking. [a] may stand before [b] when it is
    more similar, or as similar and of no
    lower final quality. *)
Definition ranks_before (context : Ctx) (a b : Case) : Prop :=
  similarity context b < similarity context a
  ∨ (similarity context a = similarity context b
     ∧ final_quality_score b ≤ final_quality_score a).

#[export] Instance ranks_before_dec context a b : Decision (ranks_before context a b).
Proof. unfold ranks_before. apply _. Defined.

(** Modelled from the spec: [sort_by_similarity], which [find_similar_cases]
    calls and the source does not define. The specification ranks cases by
    a similarity score that combines keyword overlap with recency, and
    breaks ties by the higher final quality score. *)
Definition sort_by_similarity (all_cases : list Case) (context : Ctx) : list Case :=
  merge_sort (ranks_before context) all_cases.

Definition find_similar_cases (context : Ctx) : list Case :=
  let keywords := extract_keywords context in
  let event_similarities := find_similar_events keywords in
  let knowledge_similarities := find_similar_knowledge keywords in
  let all_cases := event_similarities ++ knowledge_similarities in
  let sorted_cases := sort_by_similarity all_cases context in
  take 10 sorted_cases.

Definition candidates (context : Ctx) : list Case :=
  find_similar_events (extract_keywords context)
  ++ find_similar_knowledge (extract_keywords context).

End Retrieval.

(** Sample memory: seven cases from the event history and five from the
    knowledge base; the similarity of a case is a thousand per shared keyword
    plus its timestamp. *)
Definition archived (fp : list string) (t : nat) (q : Z) : Case :=
  {| fingerprint := fp; recorded_at := t; final_quality_score := q;
     success := 80 <=? q; elapsed_iterations := 1 |}.

Definition sample_events : list Case :=
  [ archived ["todo"; "app"] 1 70; archived ["todo"] 2 90;
    archived ["blog"] 3 85; archived ["todo"; "app"; "react"] 4 60;
    archived ["app"] 5 88; archived ["shop"; "app"] 6 92;
    archived ["todo"; "app"] 1 95 ].

Definition sample_knowledge : list Case :=
  [ archived ["todo"; "list"] 7 80; archived ["chat"] 8 75;
    archived ["app"; "todo"] 9 81; archived ["game"] 10 99;
    archived ["todo"] 2 50 ].

Definition sample_combine (overlap recorded : nat) : Z :=
  1000 * Z.of_nat overlap + Z.of_nat recorded.

#[export] Instance sample_memory : Memory (list string) := {|
  extract_keywords context := context;
  find_similar_events _ := sample_events;
  find_similar_knowledge _ := sample_knowledge;
  combine := sample_combine
|}.

Definition sample_result : list Case := find_similar_cases ["todo"; "app"].

End CaseMemory.

(** ** Run registry

    The front end only posts a creation request ([createProject] in
    services/api.js). The registry that answers it is server code, outside the
    front-end sources; its model follows the specification. *)

Module RunRegistry.

(** Modelled from the spec: the status of a Run. *)
Inductive Status := Pending | Active | Paused | Succeeded | Failed.

Definition terminal (s : Status) : bool :=
  match s with
  | Succeeded | Failed => true
  | _ => false
  end.

(** Modelled from the spec: a Run, reduced to its identity, its project, its
    request and its status. *)
Record Run := {
  run_id : nat;
  project_id : string;
  request : string;
  status : Status
}.

(** Modelled from the spec: a run counts as active until it reaches a
    terminal state. *)
Definition active (r : Run) : bool := negb (terminal (status r)).

(** Modelled from the spec: the Run Registry, a table from project id to the
    live run of that project, and a counter for fresh run ids. *)
Record Registry := {
  table : gmap string Run;
  next_run_id : nat
}.

Definition empty_registry : Registry := {| table := ∅; next_run_id := 0 |}.

Inductive CreateResult := RunId (id : nat) | ConflictError.

Definition has_active_run (p : string) (reg : Registry) : bool :=
  match table reg !! p with
  | Some r => active r
  | None => false
  end.

(** Modelled from the spec: [createRun], the atomic check-and-create. A
    request for a project with an active run is rejected with the conflict
    error and leaves the registry as it was: nothing is queued. *)
Definition createRun (p request : string) (reg : Registry) : CreateResult * Registry :=
  if has_active_run p reg then (ConflictError, reg)
  else
    let r := {| run_id := next_run_id reg; project_id := p;
                request := request; status := Pending |} in
    (RunId (next_run_id reg),
     {| table := <[p := r]> (table reg); next_run_id := S (next_run_id reg) |}).

(** Modelled from the spec: state-machine transitions of a run (terminal
    states are final) and eviction of a terminal run. *)
Definition set_status (st : Status) (r : Run) : Run :=
  if terminal (status r) then r
  else {| run_id := run_id r; project_id := project_id r;
          request := request r; status := st |}.

Definition transition (p : string) (st : Status) (reg : Registry) : Registry :=
  {| table := alter (set_status st) p (table reg); next_run_id := next_run_id reg |}.

Definition evict (p : string) (reg : Registry) : Registry :=
  match table reg !! p with
  | Some r =>
      if terminal (status r)
      then {| table := delete p (table reg); next_run_id := next_run_id reg |}
      else reg
  | None => reg
  end.

(** The calls that reach the registry, in the order in which their atomic
    sections run; concurrent callers show up as some interleaving. *)
Inductive Call :=
  | CreateRun (p request : string)
  | Transition (p : string) (st : Status)
  | Evict (p : string).

Definition serve (reg : Registry) (c : Call) : option CreateResult * Registry :=
  match c with
  | CreateRun p request =>
      let '(res, reg') := createRun p request reg in (Some res, reg')
  | Transition p st => (None, transition p st reg)
  | Evict p => (None, evict p reg)
  end.

Fixpoint serve_all (calls : list Call) (reg : Registry)
    : list (option CreateResult) * Registry :=
  match calls with
  | [] => ([], reg)
  | c :: calls =>
      let '(res, reg1) := serve reg c in
      let '(ress, reg2) := serve_all calls reg1 in
      (res :: ress, reg2)
  end.

(** The active runs of a project that the registry holds, under any key. *)
Definition active_runs (p : string) (reg : Registry) : list (string * Run) :=
  filter (λ kr, project_id kr.2 = p ∧ active kr.2 = true) (map_to_list (table reg)).

(** A burst of creation requests, as (project, request) pairs. *)
Definition creations (burst : list (string * string)) : list Call :=
  (λ pr, CreateRun pr.1 pr.2) <$> burst.

(** Every run sits under the key of its own project. *)
Definition well_keyed (reg : Registry) : Prop :=
  ∀ k r, table reg !! k = Some r → project_id r = k.

(** A creation request for project [p]. *)
Definition is_create_for (p : string) (c : Call) : bool :=
  match c with
  | CreateRun q _ => bool_decide (q = p)
  | _ => false
  end.

(** How many of the calls created a run for project [p]. *)
Fixpoint created_for (p : string) (calls : list Call)
    (results : list (option CreateResult)) : nat :=
  match calls, results with
  | c :: calls, res :: results =>
      ((if is_create_for p c
        then match res with Some (RunId _) => 1 | _ => 0 end
        else 0)
       + created_for p calls results)%nat
  | _, _ => 0%nat
  end.

(** How many of the calls for project [p] got the conflict error. *)
Fixpoint rejected_for (p : string) (calls : list Call)
    (results : list (option CreateResult)) : nat :=
  match calls, results with
  | c :: calls, res :: results =>
      ((if is_create_for p c
        then match res with Some ConflictError => 1 | _ => 0 end
        else 0)
       + rejected_for p calls results)%nat
  | _, _ => 0%nat
  end.

Definition requests_for (p : string) (calls : list Call) : nat :=
  length (filter (λ c, is_create_for p c) calls).

End RunRegistry.

(** ** The heartbeat of the Event Hub

    Modelled from the spec: the Hub's side of the heartbeat, which is not
    in the sources (the front end has only its own ping timer). The spec
    has one sentence for it: the Hub sends a keepalive signal on an idle
    connection at a fixed interval; four consecutive missed acknowledgments
    mark the Subscription dead and release its resources. *)

Module HubHeartbeat.

(** Modelled from the spec: the number of acknowledgments missed in a row
    that marks a Subscription dead. *)
Definition MISSED_LIMIT : nat := 4.

(** What became of a keepalive. *)
Inductive Fate := Acknowledged | Missed.

(** Modelled from the spec: a Subscription (observer id, project id,
    last-delivered sequence number) and the heartbeat of its connection.
    [idle]: no event has gone out on the connection since the last firing
    of the heartbeat timer; [awaiting]: the last keepalive has not been
    acknowledged; [missed]: the acknowledgments missed in a row. The two
    logs are ghosts: when the keepalives were sent, and what became of
    each. *)
Record Subscription := {
  observer : string;
  project : string;
  last_delivered : option nat;
  idle : bool;
  awaiting : bool;
  missed : nat;
  keepalives : list Z;
  fates : list Fate
}.

(** Modelled from the spec: the Hub, with its clock and the Subscriptions
    it holds; releasing the resources of a Subscription is removing it from
    the table. [dead] is a ghost: the Subscriptions marked dead, each with
    the fates of its keepalives. *)
Record Hub := {
  clock : Z;
  subscriptions : gmap nat Subscription;
  next_id : nat;
  dead : gmap nat (list Fate)
}.

Definition empty_hub : Hub :=
  {| clock := 0; subscriptions := ∅; next_id := 0; dead := ∅ |}.

(** The fixed interval of the heartbeat timer. *)
Class HeartbeatConfig := { interval : Z }.

(** What reaches the Hub: a subscribe request; an unsubscribe request or
    the disconnect of the observer; an event delivered on a connection; an
    acknowledgment of a keepalive; a firing of the heartbeat timer. *)
Inductive Input :=
  | Subscribe (observer project : string)
  | Unsubscribe (id : nat)
  | Traffic (id : nat) (seq : nat)
  | Ack (id : nat)
  | Tick.

Definition fresh_subscription (observer project : string) : Subscription :=
  {| observer := observer; project := project; last_delivered := None;
     idle := true; awaiting := false; missed := 0; keepalives := []; fates := [] |}.

(** The event numbered [seq] goes out on the connection. *)
Definition traffic (seq : nat) (s : Subscription) : Subscription :=
  {| observer := observer s; project := project s;
     last_delivered := Some seq; idle := false;
     awaiting := awaiting s; missed := missed s; keepalives := keepalives s;
     fates := fates s |}.

(** An acknowledgment arrives: it answers the keepalive that is out, and
    ends the row of missed ones; with no keepalive out it is ignored. *)
Definition acknowledge (s : Subscription) : Subscription :=
  if awaiting s
  then {| observer := observer s; project := project s;
          last_delivered := last_delivered s; idle := idle s;
          awaiting := false; missed := 0; keepalives := keepalives s;
          fates := fates s ++ [Acknowledged] |}
  else s.

(** The timer fires and the last keepalive is still not acknowledged: its
    acknowledgment is missed. *)
Definition account (s : Subscription) : Subscription :=
  if awaiting s
  then {| observer := observer s; project := project s;
          last_delivered := last_delivered s; idle := idle s;
          awaiting := false; missed := S (missed s); keepalives := keepalives s;
          fates := fates s ++ [Missed] |}
  else s.

Definition is_dead (s : Subscription) : bool := (MISSED_LIMIT <=? missed s)%nat.

(** The keepalive of this firing, sent at [now] when the connection is
    idle; a connection that was not idle starts a new idle period. *)
Definition keepalive (now : Z) (s : Subscription) : Subscription :=
  if idle s
  then {| observer := observer s; project := project s;
          last_delivered := last_delivered s; idle := true;
          awaiting := true; missed := missed s;
          keepalives := keepalives s ++ [now]; fates := fates s |}
  else {| observer := observer s; project := project s;
          last_delivered := last_delivered s; idle := true;
          awaiting := awaiting s; missed := missed s;
          keepalives := keepalives s; fates := fates s |}.

(** One firing of the timer on one Subscription: [None] when it is marked
    dead. *)
Definition tick_subscription (now : Z) (s : Subscription) : option Subscription :=
  if is_dead (account s) then None else Some (keepalive now (account s)).

Section Hub.
Context {config : HeartbeatConfig}.

Definition tick (h : Hub) : Hub :=
  {| clock := clock h + interval;
     subscriptions := omap (tick_subscription (clock h)) (subscriptions h);
     next_id := next_id h;
     dead :=
       ((λ s, fates (account s))
          <$> filter (λ entry, is_dead (account entry.2) = true) (subscriptions h))
       ∪ dead h |}.

Definition step (h : Hub) (i : Input) : Hub :=
  match i with
  | Subscribe observer project =>
      {| clock := clock h;
         subscriptions :=
           <[next_id h := fresh_subscription observer project]> (subscriptions h);
         next_id := S (next_id h);
         dead := dead h |}
  | Unsubscribe id =>
      {| clock := clock h; subscriptions := delete id (subscriptions h);
         next_id := next_id h; dead := dead h |}
  | Traffic id seq =>
      {| clock := clock h; subscriptions := alter (traffic seq) id (subscriptions h);
         next_id := next_id h; dead := dead h |}
  | Ack id =>
      {| clock := clock h; subscriptions := alter acknowledge id (subscriptions h);
         next_id := next_id h; dead := dead h |}
  | Tick => tick h
  end.

Definition run (inputs : list Input) (h : Hub) : Hub := foldl step h inputs.

End Hub.

(** *** The claim's words *)





(** A sample: once a second. *)
Definition every_second : HeartbeatConfig := {| interval := 1000 |}.

End HubHeartbeat.

(** ** The score and the loop: further notions *)

Module LoopLog.
Import QualityGate DevLoop.

(** What the findings of a version cost in all. *)
Definition total_penalty (issues : list Issue) : Z :=
  foldr (λ issue acc, penalty issue + acc) 0 issues.

(** The body that the iterations wrote to a path last, if any did. *)
Definition latest (h : list Evaluation) (path : string) : option string :=
  last (omap (λ e, new_files e !! path) h).

End LoopLog.

(** ** The WebSocket client: sessions and traffic *)

Module ClientSession.
Import WebSocketClient.

(** [list.slice(-n)]: the last [n] elements of a list. *)
Definition recent {A} (n : nat) (l : list A) : list A := drop (length l - n) l.

(** The messages that a series of frames carries, in order; a frame that
    [JSON.parse] rejects carries none. *)
Definition parsed (datas : list (option Message)) : list Message := omap id datas.

(** An effect run, or a call of [connect], in a render with a signed-in
    user. *)
Definition signed_in (i : Input) : bool :=
  match i with
  | EffectRun isAuthenticated userId | ContextConnect isAuthenticated userId =>
      isAuthenticated && bool_decide (is_Some userId)
  | _ => false
  end.

(** The client holds nothing of the browser: no socket, timer or interval. *)
Definition idle (c : Client) : Prop :=
  sockets c = [] ∧ timeouts c = [] ∧ intervals c = []
  ∧ websocketRef c = None ∧ reconnectTimeoutRef c = None
  ∧ heartbeatIntervalRef c = None ∧ isConnected c = false.

(** A frame arriving, as opposed to every other callback. *)
Definition is_message (i : Input) : bool :=
  match i with SocketMessage _ _ => true | _ => false end.

(** The history is a window of at most 100 messages that ends with the
    last message received. *)
Definition history_ok (c : Client) : Prop :=
  (length (messageHistory c) ≤ 100)%nat
  ∧ last (messageHistory c) = lastMessage c.

End ClientSession.

(** ** Registered message handlers

    [registerMessageHandler] and the first half of [handleMessage] of
    contexts/WebSocketContext.jsx: the table in the [messageHandlers] ref,
    which every page shares, and the call of the handler registered for the
    type of a message. A handler acts on the state of the page that
    registered it. *)

Module MessageHandlers.
Import WebSocketClient.

(** A handler is called with [data || message]: the [data] field when it is
    there and not empty, the whole message otherwise. A handler that throws
    is caught; what it did before is what it did. *)
Definition Handler (Page : Type) : Type := string + Message → Page → Page.
Abbreviation Handlers Page := (gmap string (Handler Page)).

Section Handlers.
Context {Page : Type}.

Definition payload_of (message : Message) : string + Message :=
  match message !! "data" with
  | Some data => if String.eqb data "" then inr message else inl data
  | None => inr message
  end.

(** The key that [messageHandlers.current[type]] reads: a missing [type]
    reads the key [undefined]. *)
Definition type_key (message : Message) : string :=
  default "undefined" (message !! "type").

(** The new table, and the function that [registerMessageHandler] returns. *)
Definition registerMessageHandler (messageType : string) (handler : Handler Page)
    (table : Handlers Page) : Handlers Page * (Handlers Page → Handlers Page) :=
  (<[messageType := handler]> table, delete messageType).

(** [handleMessage]: the registered handler first, then the built-in
    [switch] on the client. *)
Definition handleMessage (table : Handlers Page) (message : Message)
    (page : Page) (c : Client) : Page * Client :=
  let page :=
    match table !! type_key message with
    | Some handler => handler (payload_of message) page
    | None => page
    end in
  (page, WebSocketClient.handleMessage message c).

(** An effect that registers a list of handlers and keeps the functions
    returned, as the project context does, and its cleanup
    [handlers.forEach(cleanup => cleanup())]. *)
Definition register_all (entries : list (string * Handler Page))
    (table : Handlers Page) : Handlers Page * list (Handlers Page → Handlers Page) :=
  foldl (λ acc entry,
           let '(table, cleanup) := registerMessageHandler entry.1 entry.2 acc.1 in
           (table, acc.2 ++ [cleanup]))
        (table, []) entries.

Definition run_cleanups (cleanups : list (Handlers Page → Handlers Page))
    (table : Handlers Page) : Handlers Page :=
  foldl (λ table cleanup, cleanup table) table cleanups.

(** The handler that the entries register last for a type. *)
Definition last_registered (entries : list (string * Handler Page)) (type : string)
    : option (Handler Page) :=
  snd <$> last (filter (λ entry, entry.1 = type) entries).

End Handlers.

End MessageHandlers.

(** ** The project creation form (pages/ProjectCreation.jsx) *)

Module ProjectForm.

(** The update of [handleFeatureToggle] and [handleSpecialRequirementToggle]
    on the list they toggle in. *)
Definition toggle (item : string) (items : list string) : list string :=
  if bool_decide (item ∈ items)
  then filter (λ f, f ≠ item) items
  else items ++ [item].

End ProjectForm.

(** ** The project store

    The reducer of the project context (contexts/ProjectContext.jsx), which
    the handlers registered with the WebSocket context dispatch to, and the
    action creators on top of it. *)

Module ProjectStore.

(** A JS object with text fields. A project is one, with an [id] field; the
    reducer reads nothing else of a payload. *)
Abbreviation Object := (gmap string string).
Abbreviation Project := (gmap string string).

(** The state of [useReducer]; [None] is [null]. *)
Record State := {
  projects : list Project;
  projectsLoading : bool;
  projectsError : option string;
  currentProject : option Project;
  currentProjectLoading : bool;
  currentProjectError : option string;
  developmentStatus : option Object;
  developmentLoading : bool;
  developmentError : option string;
  frontendPreview : option Object;
  frontendPreviewLoading : bool;
  frontendPreviewError : option string;
  deploymentStatus : option Object;
  deploymentLoading : bool;
  deploymentError : option string;
  aiStatuses : gmap string string;
  realTimeUpdates : list Object;
  selectedProjectId : option string
}.

(** Field updates, for [{ ...state, field: v }]. *)
Definition set_projects (v : list Project) (s : State) : State :=
  {| projects := v; projectsLoading := projectsLoading s;
     projectsError := projectsError s; currentProject := currentProject s;
     currentProjectLoading := currentProjectLoading s;
     currentProjectError := currentProjectError s;
     developmentStatus := developmentStatus s;
     developmentLoading := developmentLoading s;
     developmentError := developmentError s;
     frontendPreview := frontendPreview s;
     frontendPreviewLoading := frontendPreviewLoading s;
     frontendPreviewError := frontendPreviewError s;
     deploymentStatus := deploymentStatus s;
     deploymentLoading := deploymentLoading s;
     deploymentError := deploymentError s; aiStatuses := aiStatuses s;
     realTimeUpdates := realTimeUpdates s;
     selectedProjectId := selectedProjectId s |}.

Definition set_projectsLoading (v : bool) (s : State) : State :=
  {| projects := projects s; projectsLoading := v;
     projectsError := projectsError s; currentProject := currentProject s;
     currentProjectLoading := currentProjectLoading s;
     currentProjectError := currentProjectError s;
     developmentStatus := developmentStatus s;
     developmentLoading := developmentLoading s;
     developmentError := developmentError s;
     frontendPreview := frontendPreview s;
     frontendPreviewLoading := frontendPreviewLoading s;
     frontendPreviewError := frontendPreviewError s;
     deploymentStatus := deploymentStatus s;
     deploymentLoading := deploymentLoading s;
     deploymentError := deploymentError s; aiStatuses := aiStatuses s;
     realTimeUpdates := realTimeUpdates s;
     selectedProjectId := selectedProjectId s |}.

Definition set_projectsError (v : option string) (s : State) : State :=
  {| projects := projects s; projectsLoading := projectsLoading s;
     projectsError := v; currentProject := currentProject s;
     currentProjectLoading := currentProjectLoading s;
     currentProjectError := currentProjectError s;
     developmentStatus := developmentStatus s;
     developmentLoading := developmentLoading s;
     developmentError := developmentError s;
     frontendPreview := frontendPreview s;
     frontendPreviewLoading := frontendPreviewLoading s;
     frontendPreviewError := frontendPreviewError s;
     deploymentStatus := deploymentStatus s;
     deploymentLoading := deploymentLoading s;
     deploymentError := deploymentError s; aiStatuses := aiStatuses s;
     realTimeUpdates := realTimeUpdates s;
     selectedProjectId := selectedProjectId s |}.

Definition set_currentProject (v : option Project) (s : State) : State :=
  {| projects := projects s; projectsLoading := projectsLoading s;
     projectsError := projectsError s; currentProject := v;
     currentProjectLoading := currentProjectLoading s;
     currentProjectError := currentProjectError s;
     developmentStatus := developmentStatus s;
     developmentLoading := developmentLoading s;
     developmentError := developmentError s;
     frontendPreview := frontendPreview s;
     frontendPreviewLoading := frontendPreviewLoading s;
     frontendPreviewError := frontendPreviewError s;
     deploymentStatus := deploymentStatus s;
     deploymentLoading := deploymentLoading s;
     deploymentError := deploymentError s; aiStatuses := aiStatuses s;
     realTimeUpdates := realTimeUpdates s;
     selectedProjectId := selectedProjectId s |}.

Definition set_currentProjectLoading (v : bool) (s : State) : State :=
  {| projects := projects s; projectsLoading := projectsLoading s;
     projectsError := projectsError s; currentProject := currentProject s;
     currentProjectLoading := v; currentProjectError := currentProjectError s;
     developmentStatus := developmentStatus s;
     developmentLoading := developmentLoading s;
     developmentError := developmentError s;
     frontendPreview := frontendPreview s;
     frontendPreviewLoading := frontendPreviewLoading s;
     frontendPreviewError := frontendPreviewError s;
     deploymentStatus := deploymentStatus s;
     deploymentLoading := deploymentLoading s;
     deploymentError := deploymentError s; aiStatuses := aiStatuses s;
     realTimeUpdates := realTimeUpdates s;
     selectedProjectId := selectedProjectId s |}.

Definition set_currentProjectError (v : option string) (s : State) : State :=
  {| projects := projects s; projectsLoading := projectsLoading s;
     projectsError := projectsError s; currentProject := currentProject s;
     currentProjectLoading := currentProjectLoading s;
     currentProjectError := v; developmentStatus := developmentStatus s;
     developmentLoading := developmentLoading s;
     developmentError := developmentError s;
     frontendPreview := frontendPreview s;
     frontendPreviewLoading := frontendPreviewLoading s;
     frontendPreviewError := frontendPreviewError s;
     deploymentStatus := deploymentStatus s;
     deploymentLoading := deploymentLoading s;
     deploymentError := deploymentError s; aiStatuses := aiStatuses s;
     realTimeUpdates := realTimeUpdates s;
     selectedProjectId := selectedProjectId s |}.

Definition set_developmentStatus (v : option Object) (s : State) : State :=
  {| projects := projects s; projectsLoading := projectsLoading s;
     projectsError := projectsError s; currentProject := currentProject s;
     currentProjectLoading := currentProjectLoading s;
     currentProjectError := currentProjectError s; developmentStatus := v;
     developmentLoading := developmentLoading s;
     developmentError := developmentError s;
     frontendPreview := frontendPreview s;
     frontendPreviewLoading := frontendPreviewLoading s;
     frontendPreviewError := frontendPreviewError s;
     deploymentStatus := deploymentStatus s;
     deploymentLoading := deploymentLoading s;
     deploymentError := deploymentError s; aiStatuses := aiStatuses s;
     realTimeUpdates := realTimeUpdates s;
     selectedProjectId := selectedProjectId s |}.

Definition set_developmentLoading (v : bool) (s : State) : State :=
  {| projects := projects s; projectsLoading := projectsLoading s;
     projectsError := projectsError s; currentProject := currentProject s;
     currentProjectLoading := currentProjectLoading s;
     currentProjectError := currentProjectError s;
     developmentStatus := developmentStatus s; developmentLoading := v;
     developmentError := developmentError s;
     frontendPreview := frontendPreview s;
     frontendPreviewLoading := frontendPreviewLoading s;
     frontendPreviewError := frontendPreviewError s;
     deploymentStatus := deploymentStatus s;
     deploymentLoading := deploymentLoading s;
     deploymentError := deploymentError s; aiStatuses := aiStatuses s;
     realTimeUpdates := realTimeUpdates s;
     selectedProjectId := selectedProjectId s |}.

Definition set_developmentError (v : option string) (s : State) : State :=
  {| projects := projects s; projectsLoading := projectsLoading s;
     projectsError := projectsError s; currentProject := currentProject s;
     currentProjectLoading := currentProjectLoading s;
     currentProjectError := currentProjectError s;
     developmentStatus := developmentStatus s;
     developmentLoading := developmentLoading s; developmentError := v;
     frontendPreview := frontendPreview s;
     frontendPreviewLoading := frontendPreviewLoading s;
     frontendPreviewError := frontendPreviewError s;
     deploymentStatus := deploymentStatus s;
     deploymentLoading := deploymentLoading s;
     deploymentError := deploymentError s; aiStatuses := aiStatuses s;
     realTimeUpdates := realTimeUpdates s;
     selectedProjectId := selectedProjectId s |}.

Definition set_frontendPreview (v : option Object) (s : State) : State :=
  {| projects := projects s; projectsLoading := projectsLoading s;
     projectsError := projectsError s; currentProject := currentProject s;
     currentProjectLoading := currentProjectLoading s;
     currentProjectError := currentProjectError s;
     developmentStatus := developmentStatus s;
     developmentLoading := developmentLoading s;
     developmentError := developmentError s; frontendPreview := v;
     frontendPreviewLoading := frontendPreviewLoading s;
     frontendPreviewError := frontendPreviewError s;
     deploymentStatus := deploymentStatus s;
     deploymentLoading := deploymentLoading s;
     deploymentError := deploymentError s; aiStatuses := aiStatuses s;
     realTimeUpdates := realTimeUpdates s;
     selectedProjectId := selectedProjectId s |}.

Definition set_frontendPreviewLoading (v : bool) (s : State) : State :=
  {| projects := projects s; projectsLoading := projectsLoading s;
     projectsError := projectsError s; currentProject := currentProject s;
     currentProjectLoading := currentProjectLoading s;
     currentProjectError := currentProjectError s;
     developmentStatus := developmentStatus s;
     developmentLoading := developmentLoading s;
     developmentError := developmentError s;
     frontendPreview := frontendPreview s; frontendPreviewLoading := v;
     frontendPreviewError := frontendPreviewError s;
     deploymentStatus := deploymentStatus s;
     deploymentLoading := deploymentLoading s;
     deploymentError := deploymentError s; aiStatuses := aiStatuses s;
     realTimeUpdates := realTimeUpdates s;
     selectedProjectId := selectedProjectId s |}.

Definition set_frontendPreviewError (v : option string) (s : State) : State :=
  {| projects := projects s; projectsLoading := projectsLoading s;
     projectsError := projectsError s; currentProject := currentProject s;
     currentProjectLoading := currentProjectLoading s;
     currentProjectError := currentProjectError s;
     developmentStatus := developmentStatus s;
     developmentLoading := developmentLoading s;
     developmentError := developmentError s;
     frontendPreview := frontendPreview s;
     frontendPreviewLoading := frontendPreviewLoading s;
     frontendPreviewError := v; deploymentStatus := deploymentStatus s;
     deploymentLoading := deploymentLoading s;
     deploymentError := deploymentError s; aiStatuses := aiStatuses s;
     realTimeUpdates := realTimeUpdates s;
     selectedProjectId := selectedProjectId s |}.

Definition set_deploymentStatus (v : option Object) (s : State) : State :=
  {| projects := projects s; projectsLoading := projectsLoading s;
     projectsError := projectsError s; currentProject := currentProject s;
     currentProjectLoading := currentProjectLoading s;
     currentProjectError := currentProjectError s;
     developmentStatus := developmentStatus s;
     developmentLoading := developmentLoading s;
     developmentError := developmentError s;
     frontendPreview := frontendPreview s;
     frontendPreviewLoading := frontendPreviewLoading s;
     frontendPreviewError := frontendPreviewError s; deploymentStatus := v;
     deploymentLoading := deploymentLoading s;
     deploymentError := deploymentError s; aiStatuses := aiStatuses s;
     realTimeUpdates := realTimeUpdates s;
     selectedProjectId := selectedProjectId s |}.

Definition set_deploymentLoading (v : bool) (s : State) : State :=
  {| projects := projects s; projectsLoading := projectsLoading s;
     projectsError := projectsError s; currentProject := currentProject s;
     currentProjectLoading := currentProjectLoading s;
     currentProjectError := currentProjectError s;
     developmentStatus := developmentStatus s;
     developmentLoading := developmentLoading s;
     developmentError := developmentError s;
     frontendPreview := frontendPreview s;
     frontendPreviewLoading := frontendPreviewLoading s;
     frontendPreviewError := frontendPreviewError s;
     deploymentStatus := deploymentStatus s; deploymentLoading := v;
     deploymentError := deploymentError s; aiStatuses := aiStatuses s;
     realTimeUpdates := realTimeUpdates s;
     selectedProjectId := selectedProjectId s |}.

Definition set_deploymentError (v : option string) (s : State) : State :=
  {| projects := projects s; projectsLoading := projectsLoading s;
     projectsError := projectsError s; currentProject := currentProject s;
     currentProjectLoading := currentProjectLoading s;
     currentProjectError := currentProjectError s;
     developmentStatus := developmentStatus s;
     developmentLoading := developmentLoading s;
     developmentError := developmentError s;
     frontendPreview := frontendPreview s;
     frontendPreviewLoading := frontendPreviewLoading s;
     frontendPreviewError := frontendPreviewError s;
     deploymentStatus := deploymentStatus s;
     deploymentLoading := deploymentLoading s; deploymentError := v;
     aiStatuses := aiStatuses s; realTimeUpdates := realTimeUpdates s;
     selectedProjectId := selectedProjectId s |}.

Definition set_aiStatuses (v : gmap string string) (s : State) : State :=
  {| projects := projects s; projectsLoading := projectsLoading s;
     projectsError := projectsError s; currentProject := currentProject s;
     currentProjectLoading := currentProjectLoading s;
     currentProjectError := currentProjectError s;
     developmentStatus := developmentStatus s;
     developmentLoading := developmentLoading s;
     developmentError := developmentError s;
     frontendPreview := frontendPreview s;
     frontendPreviewLoading := frontendPreviewLoading s;
     frontendPreviewError := frontendPreviewError s;
     deploymentStatus := deploymentStatus s;
     deploymentLoading := deploymentLoading s;
     deploymentError := deploymentError s; aiStatuses := v;
     realTimeUpdates := realTimeUpdates s;
     selectedProjectId := selectedProjectId s |}.

Definition set_realTimeUpdates (v : list Object) (s : State) : State :=
  {| projects := projects s; projectsLoading := projectsLoading s;
     projectsError := projectsError s; currentProject := currentProject s;
     currentProjectLoading := currentProjectLoading s;
     currentProjectError := currentProjectError s;
     developmentStatus := developmentStatus s;
     developmentLoading := developmentLoading s;
     developmentError := developmentError s;
     frontendPreview := frontendPreview s;
     frontendPreviewLoading := frontendPreviewLoading s;
     frontendPreviewError := frontendPreviewError s;
     deploymentStatus := deploymentStatus s;
     deploymentLoading := deploymentLoading s;
     deploymentError := deploymentError s; aiStatuses := aiStatuses s;
     realTimeUpdates := v; selectedProjectId := selectedProjectId s |}.

Definition set_selectedProjectId (v : option string) (s : State) : State :=
  {| projects := projects s; projectsLoading := projectsLoading s;
     projectsError := projectsError s; currentProject := currentProject s;
     currentProjectLoading := currentProjectLoading s;
     currentProjectError := currentProjectError s;
     developmentStatus := developmentStatus s;
     developmentLoading := developmentLoading s;
     developmentError := developmentError s;
     frontendPreview := frontendPreview s;
     frontendPreviewLoading := frontendPreviewLoading s;
     frontendPreviewError := frontendPreviewError s;
     deploymentStatus := deploymentStatus s;
     deploymentLoading := deploymentLoading s;
     deploymentError := deploymentError s; aiStatuses := aiStatuses s;
     realTimeUpdates := realTimeUpdates s; selectedProjectId := v |}.

Definition initialState : State :=
  {| projects := []; projectsLoading := false; projectsError := None;
     currentProject := None; currentProjectLoading := false;
     currentProjectError := None;
     developmentStatus := None; developmentLoading := false;
     developmentError := None;
     frontendPreview := None; frontendPreviewLoading := false;
     frontendPreviewError := None;
     deploymentStatus := None; deploymentLoading := false;
     deploymentError := None;
     aiStatuses :=
       {[ "document_ai" := "idle"; "development_ai" := "idle";
          "supervisor_ai" := "idle"; "test_ai" := "idle";
          "frontend_ai" := "idle"; "deploy_ai" := "idle" ]};
     realTimeUpdates := [];
     selectedProjectId := None |}.

(** The actions, each with the payload its dispatchers give it; [OTHER] is
    any type the [switch] has no case for. *)
Inductive Action :=
  | SET_PROJECTS_LOADING
  | SET_PROJECTS_SUCCESS (payload : list Project)
  | SET_PROJECTS_ERROR (payload : string)
  | ADD_PROJECT (payload : Project)
  | UPDATE_PROJECT (payload : Project)
  | REMOVE_PROJECT (payload : string)
  | SET_CURRENT_PROJECT_LOADING
  | SET_CURRENT_PROJECT_SUCCESS (payload : Project)
  | SET_CURRENT_PROJECT_ERROR (payload : string)
  | CLEAR_CURRENT_PROJECT
  | SET_DEVELOPMENT_STATUS_LOADING
  | SET_DEVELOPMENT_STATUS_SUCCESS (payload : Object)
  | SET_DEVELOPMENT_STATUS_ERROR (payload : string)
  | UPDATE_DEVELOPMENT_PROGRESS (payload : Object)
  | SET_FRONTEND_PREVIEW_LOADING
  | SET_FRONTEND_PREVIEW_SUCCESS (payload : Object)
  | SET_FRONTEND_PREVIEW_ERROR (payload : string)
  | SET_DEPLOYMENT_STATUS_LOADING
  | SET_DEPLOYMENT_STATUS_SUCCESS (payload : Object)
  | SET_DEPLOYMENT_STATUS_ERROR (payload : string)
  | UPDATE_AI_STATUS (aiType status : string)
  | ADD_REAL_TIME_UPDATE (payload : Object)
  | CLEAR_REAL_TIME_UPDATES
  | SET_SELECTED_PROJECT (payload : option string)
  | OTHER (type : string).

(** [project.id], [undefined] when the field is missing. *)
Definition id_of (project : Project) : option string := project !! "id".

(** [state.currentProject?.id] *)
Definition current_id (state : State) : option string :=
  currentProject state ≫= id_of.

Definition projectReducer (state : State) (action : Action) : State :=
  match action with
  | SET_PROJECTS_LOADING =>
      set_projectsError None (set_projectsLoading true state)
  | SET_PROJECTS_SUCCESS payload =>
      set_projectsError None (set_projectsLoading false (set_projects payload state))
  | SET_PROJECTS_ERROR payload =>
      set_projectsError (Some payload) (set_projectsLoading false state)
  | ADD_PROJECT payload =>
      set_projects (payload :: projects state) state
  | UPDATE_PROJECT payload =>
      set_currentProject
        (if bool_decide (current_id state = id_of payload)
         then Some payload else currentProject state)
        (set_projects
           ((λ project,
               if bool_decide (id_of project = id_of payload)
               then payload else project) <$> projects state)
           state)
  | REMOVE_PROJECT payload =>
      set_currentProject
        (if bool_decide (current_id state = Some payload)
         then None else currentProject state)
        (set_projects
           (filter (λ project, id_of project ≠ Some payload) (projects state))
           state)
  | SET_CURRENT_PROJECT_LOADING =>
      set_currentProjectError None (set_currentProjectLoading true state)
  | SET_CURRENT_PROJECT_SUCCESS payload =>
      set_currentProjectError None
        (set_currentProjectLoading false (set_currentProject (Some payload) state))
  | SET_CURRENT_PROJECT_ERROR payload =>
      set_currentProjectError (Some payload) (set_currentProjectLoading false state)
  | CLEAR_CURRENT_PROJECT =>
      set_deploymentStatus None
        (set_frontendPreview None
           (set_developmentStatus None (set_currentProject None state)))
  | SET_DEVELOPMENT_STATUS_LOADING =>
      set_developmentError None (set_developmentLoading true state)
  | SET_DEVELOPMENT_STATUS_SUCCESS payload =>
      set_developmentError None
        (set_developmentLoading false (set_developmentStatus (Some payload) state))
  | SET_DEVELOPMENT_STATUS_ERROR payload =>
      set_developmentError (Some payload) (set_developmentLoading false state)
  | UPDATE_DEVELOPMENT_PROGRESS payload =>
      set_developmentStatus
        (Some (payload ∪ default ∅ (developmentStatus state))) state
  | SET_FRONTEND_PREVIEW_LOADING =>
      set_frontendPreviewError None (set_frontendPreviewLoading true state)
  | SET_FRONTEND_PREVIEW_SUCCESS payload =>
      set_frontendPreviewError None
        (set_frontendPreviewLoading false (set_frontendPreview (Some payload) state))
  | SET_FRONTEND_PREVIEW_ERROR payload =>
      set_frontendPreviewError (Some payload) (set_frontendPreviewLoading false state)
  | SET_DEPLOYMENT_STATUS_LOADING =>
      set_deploymentError None (set_deploymentLoading true state)
  | SET_DEPLOYMENT_STATUS_SUCCESS payload =>
      set_deploymentError None
        (set_deploymentLoading false (set_deploymentStatus (Some payload) state))
  | SET_DEPLOYMENT_STATUS_ERROR payload =>
      set_deploymentError (Some payload) (set_deploymentLoading false state)
  | UPDATE_AI_STATUS aiType status =>
      set_aiStatuses (<[aiType := status]> (aiStatuses state)) state
  | ADD_REAL_TIME_UPDATE payload =>
      set_realTimeUpdates (payload :: take 99 (realTimeUpdates state)) state
  | CLEAR_REAL_TIME_UPDATES =>
      set_realTimeUpdates [] state
  | SET_SELECTED_PROJECT payload =>
      set_selectedProjectId payload state
  | OTHER _ => state
  end.

(** [dispatch] called once per action, in order. *)
Definition dispatch_all (actions : list Action) (state : State) : State :=
  foldl projectReducer state actions.

(** [removeProject], as created in the render that saw [seen]: the test of
    [state.selectedProjectId] reads that render's state. *)
Definition removeProject (seen : State) (projectId : string) (state : State) : State :=
  let state := projectReducer state (REMOVE_PROJECT projectId) in
  if bool_decide (selectedProjectId seen = Some projectId)
  then projectReducer state (SET_SELECTED_PROJECT None)
  else state.

End ProjectStore.

(** ** The pages on top of the two contexts

    The business methods of contexts/WebSocketContext.jsx and their callers:
    the loaders and [selectProject] of contexts/ProjectContext.jsx, and the
    chat of pages/DevelopmentMonitor.jsx. *)

Module ProjectPages.
Import WebSocketClient ProjectStore.

(** *** The business methods of the WebSocket context *)

Definition subscribeToProject (projectId : string) (c : Client) : bool * Client :=
  sendMessage {[ "type" := "subscribe_project"; "project_id" := projectId ]} c.

Definition unsubscribeFromProject (projectId : string) (c : Client) : bool * Client :=
  sendMessage {[ "type" := "unsubscribe_project"; "project_id" := projectId ]} c.

(** [aiType = 'document'] stands in when the argument is left out. *)
Definition sendAIChat (projectId content : string) (aiType : option string)
    (c : Client) : bool * Client :=
  sendMessage {[ "type" := "ai_chat"; "project_id" := projectId;
                 "content" := content; "ai_type" := default "document" aiType ]} c.

Definition requestProjectStatus (projectId : string) (c : Client) : bool * Client :=
  sendMessage {[ "type" := "request_status"; "project_id" := projectId ]} c.

Definition sendUserFeedback (projectId feedbackType content : string)
    (c : Client) : bool * Client :=
  sendMessage {[ "type" := "user_feedback"; "project_id" := projectId;
                 "feedback_type" := feedbackType; "content" := content ]} c.

(** *** Loading a project (contexts/ProjectContext.jsx)

    The loaders are async functions: each dispatches its loading action,
    awaits a call of services/api.js, and goes on when the call completes,
    with the response data or with the message of the error. An async
    function that awaits another one goes on only after that one has
    returned, in a later turn. In between, other loaders, handlers and
    pages run and dispatch. An [Await] is a function that waits, together
    with what it has still to do: a loader waits for its call; a status
    loader that [loadProjectRelatedData] called has that function wait for
    it ([parent] is its project), and [loadProjectRelatedData] then goes on
    from its second or from its third test. *)

Inductive Await :=
  | AwaitProject (projectId : string)
  | AwaitDevelopmentStatus (projectId : option string) (parent : option Project)
  | AwaitFrontendPreview (projectId : option string) (parent : option Project)
  | AwaitDeploymentStatus (projectId : option string)
  | AwaitDevelopmentLoader (project : Project)
  | AwaitPreviewLoader (project : Project).

(** The store, and the functions that wait. *)
Record Pages := {
  store : State;
  awaits : list Await
}.

Definition initial_pages : Pages := {| store := initialState; awaits := [] |}.

Definition dispatch (action : Action) (p : Pages) : Pages :=
  {| store := projectReducer (store p) action; awaits := awaits p |}.

Definition await (a : Await) (p : Pages) : Pages :=
  {| store := store p; awaits := awaits p ++ [a] |}.

(** [list.includes(project.status)] *)
Definition includes (values : list string) (value : option string) : bool :=
  match value with
  | Some v => bool_decide (v ∈ values)
  | None => false
  end.

(** A project id in a condition: [null] and the empty string are falsy. *)
Definition truthy (v : option string) : bool :=
  match v with
  | Some s => negb (String.eqb s "")
  | None => false
  end.

(** The three status loaders, up to their await. *)
Definition start_development (projectId : option string) (parent : option Project)
    (p : Pages) : Pages :=
  await (AwaitDevelopmentStatus projectId parent)
    (dispatch SET_DEVELOPMENT_STATUS_LOADING p).

Definition start_preview (projectId : option string) (parent : option Project)
    (p : Pages) : Pages :=
  await (AwaitFrontendPreview projectId parent)
    (dispatch SET_FRONTEND_PREVIEW_LOADING p).

Definition start_deployment (projectId : option string) (p : Pages) : Pages :=
  await (AwaitDeploymentStatus projectId) (dispatch SET_DEPLOYMENT_STATUS_LOADING p).

(** Called by a page or by a handler. *)
Definition loadDevelopmentStatus (projectId : option string) : Pages → Pages :=
  start_development projectId None.

Definition loadFrontendPreview (projectId : option string) : Pages → Pages :=
  start_preview projectId None.

Definition loadDeploymentStatus (projectId : option string) : Pages → Pages :=
  start_deployment projectId.

(** [loadProjectRelatedData], from each of its three tests on, up to the
    next await. *)
Definition related_deployment (project : Project) (p : Pages) : Pages :=
  if includes ["deploying"; "deployed"; "completed"] (project !! "status")
  then start_deployment (id_of project) p
  else p.

Definition related_preview (project : Project) (p : Pages) : Pages :=
  if includes ["frontend_development"; "frontend_review"; "integration";
               "final_testing"; "deploying"; "deployed"; "completed"]
       (project !! "status")
  then start_preview (id_of project) (Some project) p
  else related_deployment project p.

Definition loadProjectRelatedData (project : Project) (p : Pages) : Pages :=
  if includes ["development_started"; "backend_development"; "testing_backend";
               "frontend_development"; "integration"] (project !! "status")
  then start_development (id_of project) (Some project) p
  else related_preview project p.

(** [loadProject], up to its await. *)
Definition loadProject (projectId : string) (p : Pages) : Pages :=
  await (AwaitProject projectId) (dispatch SET_CURRENT_PROJECT_LOADING p).

(** A function that waits goes on, up to its next await or to its end: a
    loader with the [outcome] of its call, [loadProjectRelatedData] once
    the loader it called has returned (no outcome is looked at). *)
Definition resolve (a : Await) (outcome : Object + string) (p : Pages) : Pages :=
  match a with
  | AwaitProject _ =>
      match outcome with
      | inl project =>
          loadProjectRelatedData project
            (dispatch (SET_CURRENT_PROJECT_SUCCESS project) p)
      | inr message => dispatch (SET_CURRENT_PROJECT_ERROR message) p
      end
  | AwaitDevelopmentStatus _ parent =>
      let p :=
        match outcome with
        | inl status => dispatch (SET_DEVELOPMENT_STATUS_SUCCESS status) p
        | inr message => dispatch (SET_DEVELOPMENT_STATUS_ERROR message) p
        end in
      from_option (λ project, await (AwaitDevelopmentLoader project) p) p parent
  | AwaitFrontendPreview _ parent =>
      let p :=
        match outcome with
        | inl preview => dispatch (SET_FRONTEND_PREVIEW_SUCCESS preview) p
        | inr message => dispatch (SET_FRONTEND_PREVIEW_ERROR message) p
        end in
      from_option (λ project, await (AwaitPreviewLoader project) p) p parent
  | AwaitDeploymentStatus _ =>
      match outcome with
      | inl status => dispatch (SET_DEPLOYMENT_STATUS_SUCCESS status) p
      | inr message => dispatch (SET_DEPLOYMENT_STATUS_ERROR message) p
      end
  | AwaitDevelopmentLoader project => related_preview project p
  | AwaitPreviewLoader project => related_deployment project p
  end.

(** What happens on the pages: a loader is called, the function numbered
    [k] among those that wait goes on, or something else dispatches. *)
Inductive PageEvent :=
  | CallLoadProject (projectId : string)
  | CallLoadDevelopmentStatus (projectId : option string)
  | CallLoadFrontendPreview (projectId : option string)
  | CallLoadDeploymentStatus (projectId : option string)
  | Completes (k : nat) (outcome : Object + string)
  | Dispatches (action : Action).

Definition page_step (p : Pages) (ev : PageEvent) : Pages :=
  match ev with
  | CallLoadProject projectId => loadProject projectId p
  | CallLoadDevelopmentStatus projectId => loadDevelopmentStatus projectId p
  | CallLoadFrontendPreview projectId => loadFrontendPreview projectId p
  | CallLoadDeploymentStatus projectId => loadDeploymentStatus projectId p
  | Completes k outcome =>
      match awaits p !! k with
      | Some a => resolve a outcome {| store := store p; awaits := delete k (awaits p) |}
      | None => p
      end
  | Dispatches action => dispatch action p
  end.

Definition page_run (events : list PageEvent) (p : Pages) : Pages :=
  foldl page_step p events.

(** The four kinds of loader, the loading flag of each, and the kind of
    the call that a function waits for, if it waits for a call. *)
Inductive Kind := OfProject | OfDevelopment | OfPreview | OfDeployment.

#[export] Instance Kind_eq_dec : EqDecision Kind.
Proof. solve_decision. Defined.

Definition flag (k : Kind) (state : State) : bool :=
  match k with
  | OfProject => currentProjectLoading state
  | OfDevelopment => developmentLoading state
  | OfPreview => frontendPreviewLoading state
  | OfDeployment => deploymentLoading state
  end.

Definition kind_of (a : Await) : option Kind :=
  match a with
  | AwaitProject _ => Some OfProject
  | AwaitDevelopmentStatus _ _ => Some OfDevelopment
  | AwaitFrontendPreview _ _ => Some OfPreview
  | AwaitDeploymentStatus _ => Some OfDeployment
  | AwaitDevelopmentLoader _ | AwaitPreviewLoader _ => None
  end.

(** The actions that raise a loading flag. [dispatch] is local to the
    provider, and there only the loaders dispatch them, as their first
    step. *)
Definition raises_flag (action : Action) : bool :=
  match action with
  | SET_CURRENT_PROJECT_LOADING | SET_DEVELOPMENT_STATUS_LOADING
  | SET_FRONTEND_PREVIEW_LOADING | SET_DEPLOYMENT_STATUS_LOADING => true
  | _ => false
  end.

(** An event in which nothing but a loader raises a loading flag. *)
Definition by_the_loaders (ev : PageEvent) : bool :=
  match ev with
  | Dispatches action => negb (raises_flag action)
  | _ => true
  end.

(** Every raised flag has a call of its kind under way, but for the kind
    [except]. *)
Definition backed_except (except : option Kind) (p : Pages) : Prop :=
  ∀ k, Some k ≠ except → flag k (store p) = true → Some k ∈ kind_of <$> awaits p.

Definition backed (p : Pages) : Prop := backed_except None p.

(** No loading flag is raised. *)
Definition settled (state : State) : Prop :=
  currentProjectLoading state = false ∧ developmentLoading state = false
  ∧ frontendPreviewLoading state = false ∧ deploymentLoading state = false.

(** The development monitor starts [loadProject] and
    [loadDevelopmentStatus] side by side; here the status call fails
    first, a progress update arrives, and the project, which is in backend
    development, makes [loadProjectRelatedData] load the status again. *)
Definition monitor_events : list PageEvent :=
  [ CallLoadProject "p1";
    CallLoadDevelopmentStatus (Some "p1");
    Completes 1 (inr "timeout");
    Dispatches (UPDATE_DEVELOPMENT_PROGRESS {[ "stage" := "backend" ]});
    Completes 0 (inl {[ "id" := "p1"; "status" := "backend_development" ]});
    Completes 0 (inl {[ "stage" := "tests" ]});
    Completes 0 (inl ∅) ].

(** [selectProject], as created in the render that saw [seen], up to the
    await in [loadProject]. *)
Definition selectProject (seen : State) (projectId : option string)
    (p : Pages) (c : Client) : Pages * Client :=
  if bool_decide (projectId = selectedProjectId seen) then (p, c)
  else
    let c :=
      if truthy (selectedProjectId seen)
      then (unsubscribeFromProject (default "" (selectedProjectId seen)) c).2
      else c in
    let p := dispatch (SET_SELECTED_PROJECT projectId) p in
    if truthy projectId
    then
      let c := (subscribeToProject (default "" projectId) c).2 in
      (loadProject (default "" projectId) p, c)
    else (dispatch CLEAR_CURRENT_PROJECT p, c).

(** The frames that a change of selection sends. *)
Definition selection_frames (old new : option string) : list Message :=
  (if truthy old
   then [{[ "type" := "unsubscribe_project"; "project_id" := default "" old ]}]
   else [])
  ++ (if truthy new
      then [{[ "type" := "subscribe_project"; "project_id" := default "" new ]}]
      else []).

(** What has been sent through the current socket. *)
Definition sent (c : Client) : list Message :=
  match websocketRef c with
  | Some id => from_option outbox [] (sockets c !! id)
  | None => []
  end.

(** *** The chat of the development monitor (pages/DevelopmentMonitor.jsx) *)

Record ChatLine := {
  role : string;
  content : string
}.

(** The state of the page that the chat touches, and the notifications it
    has shown. The time stamps of the lines are left out. *)
Record Monitor := {
  chatMessage : string;
  chatHistory : list ChatLine;
  notices : list string
}.

Section Chat.
(** [!chatMessage.trim()], and the call of [chatWithDocumentAI], which
    answers with the reply or fails with the message of the error. *)
Variable blank : string → bool.
Variable chatWithDocumentAI : string → string → string + string.

Definition handleSendChatMessage (projectId : string) (m : Monitor) (c : Client)
    : Monitor * Client :=
  if blank (chatMessage m) then (m, c)
  else
    let userMessage := {| role := "user"; content := chatMessage m |} in
    let history := chatHistory m ++ [userMessage] in
    let '(success, c) := sendAIChat projectId (chatMessage m) (Some "development") c in
    if success
    then ({| chatMessage := ""; chatHistory := history; notices := notices m |}, c)
    else
      match chatWithDocumentAI projectId (chatMessage m) with
      | inl reply =>
          ({| chatMessage := "";
              chatHistory := history ++ [{| role := "assistant"; content := reply |}];
              notices := notices m |}, c)
      | inr message =>
          ({| chatMessage := ""; chatHistory := history;
              notices := notices m ++ [String.append "AI对话失败: " message] |}, c)
      end.

End Chat.

(** A page with a message typed in, for the worked examples. *)
Definition sample_monitor : Monitor :=
  {| chatMessage := "status?"; chatHistory := []; notices := [] |}.

End ProjectPages.

(** ** The HTTP client

    The axios instance of services/api.js: the token in [localStorage], the
    two interceptors every request passes through, and the session calls
    built on them. *)

Module ApiClient.

(** [localStorage], and the headers of a request. *)
Abbreviation Storage := (gmap string string).
Abbreviation Headers := (gmap string string).

(** What a condition makes of a string that may be missing: [null],
    [undefined] and the empty string are falsy. *)
Definition truthy (v : option string) : bool :=
  match v with
  | Some s => negb (String.eqb s "")
  | None => false
  end.

Definition getAuthToken (store : Storage) : option string := store !! "authToken".

Definition setAuthToken (token : string) (store : Storage) : Storage :=
  <["authToken" := token]> store.

Definition clearAuthToken (store : Storage) : Storage := delete "authToken" store.

(** The request interceptor, on the headers of the outgoing request. *)
Definition request_interceptor (store : Storage) (headers : Headers) : Headers :=
  let token := store !! "authToken" in
  if truthy token
  then <["Authorization" := String.append "Bearer " (default "" token)]> headers
  else headers.

(** What the browser holds for the page: the storage and the address. *)
Record Browser := {
  localStorage : Storage;
  location : string
}.

(** A value of a response body, through the two things this code does
    with it: the test in a condition, and its text, which [new Error(value)]
    takes as the message. [null], [undefined], [0], [false] and the empty
    string are falsy; a string that is not empty, an object and an array are
    truthy, whatever their text: the text of an empty array is empty. *)
Record Value := {
  is_truthy : bool;
  as_text : string
}.

(** A string as a value. *)
Definition of_text (s : string) : Value :=
  {| is_truthy := negb (String.eqb s ""); as_text := s |}.

Definition undefined : Value := {| is_truthy := false; as_text := "undefined" |}.

(** [[]], as a JSON body can carry it. *)
Definition empty_array : Value := {| is_truthy := true; as_text := "" |}.

(** A failed request as axios reports it: the response, if one came, with
    its status and the [detail] of its body ([undefined] when the body has
    none); the error code; the message. *)
Record Response := {
  status : Z;
  detail : Value
}.

Record AxiosError := {
  response : option Response;
  code : option string;
  message : option string
}.

(** [new Error(text)] *)
Definition Error (text : string) : AxiosError :=
  {| response := None; code := None; message := Some text |}.

(** [error.response?.data?.detail] *)
Definition detail_of (error : AxiosError) : Value :=
  from_option detail undefined (response error).

(** The rejection branch of the response interceptor: what it does to the
    browser and the error it rejects with. *)
Definition response_rejected (error : AxiosError) (browser : Browser) : Browser * AxiosError :=
  if bool_decide (status <$> response error = Some 401) then
    ({| localStorage := delete "authToken" (localStorage browser);
        location := "/login" |},
     Error "认证失败，请重新登录")
  else if from_option (λ r, 500 <=? status r) false (response error) then
    (browser, Error "服务器错误，请稍后重试")
  else if bool_decide (code error = Some "NETWORK_ERROR") then
    (browser, Error "网络连接失败，请检查网络")
  else
    (browser,
     Error (if is_truthy (detail_of error) then as_text (detail_of error)
            else if truthy (message error) then default "" (message error)
            else "未知错误")).

(** [handleApiError]: the message, the detail as it is, or the fallback. *)
Definition handleApiError (error : AxiosError) : Value :=
  if truthy (message error) then of_text (default "" (message error))
  else if is_truthy (detail_of error) then detail_of error
  else of_text "操作失败，请稍后重试".

(** A request through the client: the server answers with data, or the
    request fails and the response interceptor rejects. *)
Definition through_client {A} (outcome : A + AxiosError) (browser : Browser)
    : Browser * (A + AxiosError) :=
  match outcome with
  | inl data => (browser, inl data)
  | inr error =>
      let '(browser, error) := response_rejected error browser in
      (browser, inr error)
  end.

(** [login]: [access_token] is the field of the response body. *)
Definition login (outcome : option string + AxiosError) (browser : Browser)
    : Browser * (option string + AxiosError) :=
  let '(browser, result) := through_client outcome browser in
  match result with
  | inl access_token =>
      if truthy access_token
      then ({| localStorage := <["authToken" := default "" access_token]> (localStorage browser);
               location := location browser |}, result)
      else (browser, result)
  | inr _ => (browser, result)
  end.

(** [logout]: the [finally] block runs on both ways out. *)
Definition logout {A} (outcome : A + AxiosError) (browser : Browser)
    : Browser * (A + AxiosError) :=
  let '(browser, result) := through_client outcome browser in
  ({| localStorage := delete "authToken" (localStorage browser);
      location := location browser |}, result).

End ApiClient.

(** * Part II: properties *)

(** ** Quality Gate *)

Module QualityGateFacts.
Import QualityGate.

(** *** Deductions *)

Lemma deduct_penalty b i : deduct b i = b - penalty i.
Proof.
  unfold penalty, deduct.
  repeat (case_match; try lia).
Qed.

Lemma foldl_deduct issues b :
  foldl deduct b issues = b - foldr (λ i acc, penalty i + acc) 0 issues.
Proof.
  revert b. induction issues as [|i issues IH]; intros b; simpl; [lia|].
  rewrite IH, deduct_penalty. lia.
Qed.

Lemma count_severity_cons s i issues :
  count_severity s (i :: issues)
  = (if decide (severity_of i = s) then 1 else 0) + count_severity s issues.
Proof.
  unfold count_severity. rewrite filter_cons.
  case_decide; simpl; lia.
Qed.

Lemma penalty_known i :
  known_severity i →
  penalty i
  = 20 * (if decide (severity_of i = "critical") then 1 else 0)
    + 10 * (if decide (severity_of i = "high") then 1 else 0)
    + 5 * (if decide (severity_of i = "medium") then 1 else 0)
    + 2 * (if decide (severity_of i = "low") then 1 else 0).
Proof.
  unfold known_severity, penalty, deduct.
  rewrite !elem_of_cons, elem_of_nil.
  intros [-> | [-> | [-> | [-> | []]]]]; reflexivity.
Qed.

Lemma total_penalty_known issues :
  Forall known_severity issues →
  foldr (λ i acc, penalty i + acc) 0 issues
  = 20 * count_severity "critical" issues
    + 10 * count_severity "high" issues
    + 5 * count_severity "medium" issues
    + 2 * count_severity "low" issues.
Proof.
  induction 1 as [|i issues Hi _ IH]; [reflexivity|].
  simpl. rewrite IH, (penalty_known i Hi), !count_severity_cons. lia.
Qed.

(** *** Rewards *)

Lemma reward_gain b it : reward b it = b + gain it.
Proof.
  unfold gain, reward. destruct it as [name value].
  repeat (case_match; try lia).
Qed.

Lemma foldl_reward items b : foldl reward b items = b + total_gain items.
Proof.
  revert b. induction items as [|it items IH]; intros b; simpl; [lia|].
  rewrite IH, reward_gain. lia.
Qed.

Lemma total_gain_perm items items' :
  items ≡ₚ items' → total_gain items = total_gain items'.
Proof.
  induction 1; simpl; lia.
Qed.


Lemma score_of_items_eq issues items :
  score_of_items issues items
  = clamp (100 - foldr (λ i acc, penalty i + acc) 0 issues + total_gain items).
Proof.
  unfold score_of_items, clamp.
  by rewrite foldl_reward, foldl_deduct.
Qed.

Lemma metric_reaches_insert name bar k v (m : Metrics) :
  m !! k = None →
  metric_reaches name bar (<[k:=v]> m)
  = (String.eqb k name && Qle_bool bar v) || metric_reaches name bar m.
Proof.
  intros Hk. unfold metric_reaches.
  destruct (String.eqb_spec k name) as [->|Hne].
  - rewrite lookup_insert_eq, Hk. simpl. by rewrite orb_false_r.
  - by rewrite lookup_insert_ne.
Qed.

Lemma metric_reaches_fresh name bar (m : Metrics) :
  m !! name = None → metric_reaches name bar m = false.
Proof. unfold metric_reaches. by intros ->. Qed.

Lemma rubric_bonus_insert k v (m : Metrics) :
  m !! k = None → rubric_bonus (<[k:=v]> m) = gain (k, v) + rubric_bonus m.
Proof.
  intros Hk. unfold rubric_bonus, gain, reward.
  rewrite !metric_reaches_insert by done.
  destruct (String.eqb_spec k "docstring_coverage") as [->|Hd].
  - rewrite (metric_reaches_fresh "docstring_coverage") by done.
    simpl. destruct (Qle_bool _ v); simpl; lia.
  - destruct (String.eqb_spec k "test_coverage") as [->|Ht]; simpl; [|lia].
    rewrite (metric_reaches_fresh "test_coverage") by done.
    destruct (Qle_bool _ v); simpl; lia.
Qed.

Lemma total_gain_map (m : Metrics) : total_gain (map_to_list m) = rubric_bonus m.
Proof.
  induction m as [|k v m Hk IH] using map_ind.
  - by rewrite map_to_list_empty.
  - rewrite (total_gain_perm _ _ (map_to_list_insert m k v Hk)).
    simpl. by rewrite IH, rubric_bonus_insert.
Qed.

Lemma rubric_bonus_range (m : Metrics) : (0 ≤ rubric_bonus m ≤ 15)%Z.
Proof. unfold rubric_bonus. repeat case_match; lia. Qed.

Lemma calculate_quality_score_eq issues (metrics : Metrics) :
  calculate_quality_score issues metrics
  = clamp (100 - foldr (λ i acc, penalty i + acc) 0 issues + rubric_bonus metrics).
Proof.
  unfold calculate_quality_score.
  by rewrite score_of_items_eq, total_gain_map.
Qed.

Lemma clamp_range x : (0 ≤ clamp x ≤ 100)%Z.
Proof. unfold clamp. lia. Qed.

(** A finding whose severity is none of the four levels is charged as [low]. *)
Lemma penalty_unknown i :
  severity_of i ≠ "critical" → severity_of i ≠ "high" →
  severity_of i ≠ "medium" → penalty i = 2.
Proof.
  unfold penalty, deduct. intros Hc Hh Hm.
  destruct (String.eqb_spec (severity_of i) "critical"); [done|].
  destruct (String.eqb_spec (severity_of i) "high"); [done|].
  destruct (String.eqb_spec (severity_of i) "medium"); [done|].
  reflexivity.
Qed.

(** *** Worked examples *)

Example score_sample : calculate_quality_score sample_issues sample_metrics = 76.
Proof. vm_compute. reflexivity. Qed.

Example score_clean : calculate_quality_score [] sample_metrics = 100.
Proof. vm_compute. reflexivity. Qed.

Example score_floor :
  calculate_quality_score (replicate 6 (finding "critical")) ∅ = 0.
Proof. vm_compute. reflexivity. Qed.

Example score_below_bar :
  calculate_quality_score [finding "high"]
    {[ "test_coverage" := 899 # 10; "docstring_coverage" := 799 # 10 ]} = 90.
Proof. vm_compute. reflexivity. Qed.

Lemma sample_issues_known : Forall known_severity sample_issues.
Proof.
  unfold sample_issues, known_severity.
  repeat (apply List.Forall_cons;
          [apply list_elem_of_In; vm_compute;
           repeat (first [left; reflexivity | right])|]).
  apply List.Forall_nil.
Defined.

(** *** The claims on the Quality Gate *)

(** C1. For every list of findings (each with one of the four severities)
    and every metrics map, the score that [calculate_quality_score] returns
    is the policy of the specification: 100, minus 20 per critical, 10 per
    high, 5 per medium and 2 per low finding, plus a bonus that is never
    negative and never more than 15, clamped to the interval from 0 to
    100. *)
Theorem quality_score_policy (issues : list Issue) (metrics : Metrics) :
  Forall known_severity issues →
  calculate_quality_score issues metrics = policy_score issues metrics
  ∧ (0 ≤ rubric_bonus metrics ≤ 15)%Z
  ∧ (0 ≤ calculate_quality_score issues metrics ≤ 100)%Z.
Proof.
  intros Hknown. rewrite calculate_quality_score_eq.
  split; [|split].
  - unfold policy_score. rewrite (total_penalty_known issues Hknown).
    f_equal. lia.
  - apply rubric_bonus_range.
  - apply clamp_range.
Qed.

Lemma quality_score_policy_witness :
  Forall known_severity sample_issues
  ∧ calculate_quality_score sample_issues sample_metrics
    = policy_score sample_issues sample_metrics.
Proof.
  split; [exact sample_issues_known|].
  exact (proj1 (quality_score_policy sample_issues sample_metrics
                  sample_issues_known)).
Defined.



End QualityGateFacts.

(** ** The iterative development loop *)

Module DevLoopFacts.
Import QualityGate DevLoop.

Section Loop.
Context {World Plan Task : Type} `{!Workers World Plan Task}.
Variable threshold : Z.

(** *** One iteration *)

Lemma loop_body_iteration s : iteration (loop_body threshold s) = S (iteration s).
Proof.
  unfold loop_body. destruct (evaluate s) as [e w3].
  destruct (gate threshold e); [done|].
  by destruct (analyze_issues _ _ _).
Qed.

Lemma loop_body_history s : history (loop_body threshold s) = history s ++ [(evaluate s).1].
Proof.
  unfold loop_body. destruct (evaluate s) as [e w3].
  destruct (gate threshold e); [done|].
  by destruct (analyze_issues _ _ _).
Qed.

Lemma loop_body_files s : current_files (loop_body threshold s) = version_files (evaluate s).1.
Proof.
  unfold loop_body. destruct (evaluate s) as [e w3].
  destruct (gate threshold e); [done|].
  by destruct (analyze_issues _ _ _).
Qed.

Lemma loop_body_plan s :
  plan (loop_body threshold s)
  = if gate threshold (evaluate s).1
    then mark_task_complete (plan s)
    else add_fixes_to_plan (fixes_of s) (plan s).
Proof.
  unfold loop_body, fixes_of. destruct (evaluate s) as [e w3]. simpl.
  destruct (gate threshold e); [done|].
  by destruct (analyze_issues _ _ _).
Qed.

Lemma evaluate_files s :
  version_files (evaluate s).1 = new_files (evaluate s).1 ∪ current_files s.
Proof.
  unfold evaluate.
  destruct (generate_with_supervision _ _) as [new w1].
  destruct (execute_tests _ _) as [t w2].
  by destruct (analyze_quality _ _) as [q w3].
Qed.

(** *** The whole loop *)

Lemma coherent_initial (p : Plan) (w : World) : coherent (initial p w).
Proof. done. Qed.

Lemma coherent_loop_body s : coherent s → coherent (loop_body threshold s).
Proof.
  intros (Hlen & Hmerged & _). unfold coherent.
  rewrite loop_body_history, loop_body_iteration, loop_body_files.
  rewrite length_app, last_snoc. simpl. split; [lia|]. split; [|done].
  unfold merged. rewrite foldl_app. simpl.
  by rewrite evaluate_files, Hmerged.
Qed.

Lemma while_loop_invariant (P : LoopState (World := World) (Plan := Plan) → Prop) max :
  (∀ s, P s → P (loop_body threshold s)) →
  ∀ fuel s s', P s → while_loop threshold fuel max s = Some s' → P s'.
Proof.
  intros Hstep. induction fuel as [|fuel IH]; intros s s' Hs; simpl; [done|].
  destruct (loop_cond max s).
  - apply IH. by apply Hstep.
  - by intros [= <-].
Qed.

Lemma while_loop_exit max fuel s s' :
  while_loop threshold fuel max s = Some s' → loop_cond max s' = false.
Proof.
  revert s. induction fuel as [|fuel IH]; intros s; simpl; [done|].
  destruct (loop_cond max s) eqn:Hc; [apply IH|].
  by intros [= <-].
Qed.

Lemma while_loop_total max fuel s :
  (max - iteration s < fuel)%nat →
  ∃ s', while_loop threshold fuel max s = Some s'
        ∧ (iteration s ≤ iteration s')%nat
        ∧ (iteration s' ≤ Nat.max max (iteration s))%nat.
Proof.
  revert s. induction fuel as [|fuel IH]; intros s Hfuel; [lia|]. simpl.
  destruct (loop_cond max s) eqn:Hc.
  - apply andb_true_iff in Hc as [Hlt%Nat.ltb_lt _].
    destruct (IH (loop_body threshold s)) as (s' & Hrun & Hge & Hle).
    { rewrite loop_body_iteration. lia. }
    rewrite loop_body_iteration in Hge, Hle.
    exists s'. split; [done|]. lia.
  - exists s. split; [done|]. lia.
Qed.

Lemma run_loop_coherent max p w s' : run_loop threshold max p w = Some s' → coherent s'.
Proof.
  apply (while_loop_invariant coherent max coherent_loop_body).
  apply coherent_initial.
Qed.

Lemma run_loop_total max p w :
  ∃ s', run_loop threshold max p w = Some s'
        ∧ loop_cond max s' = false
        ∧ (iteration s' ≤ max)%nat
        ∧ length (history s') = iteration s'.
Proof.
  destruct (while_loop_total max (S max) (initial p w)) as (s' & Hrun & _ & Hle).
  { simpl. lia. }
  exists s'. split; [done|]. split; [by eapply while_loop_exit|].
  simpl in Hle. split; [lia|].
  by destruct (run_loop_coherent max p w s' Hrun).
Qed.

(** Leaving the loop without a completed plan means the counter ran out. *)
Lemma exit_incomplete max s :
  loop_cond max s = false → is_complete (plan s) = false →
  (max ≤ iteration s)%nat.
Proof.
  unfold loop_cond. intros Hc Hplan. rewrite Hplan in Hc. simpl in Hc.
  rewrite andb_true_r in Hc. by apply Nat.ltb_ge.
Qed.

End Loop.

(** *** The sample run *)

Example sample_run_converges :
  iterative_develop default_threshold "a todo app" default_max_iterations sample_plan 0%nat
  = Some {[ "app.py" := "draft 3" ]}.
Proof. vm_compute. reflexivity. Qed.

Example sample_run_iterations :
  iteration <$> run_loop default_threshold default_max_iterations sample_plan 0%nat
  = Some 3%nat.
Proof. vm_compute. reflexivity. Qed.

Example sample_run_fixes :
  (λ s, fixes (plan s)) <$> run_loop default_threshold default_max_iterations sample_plan 0%nat
  = Some (finding "medium" :: replicate 3 (finding "critical")).
Proof. vm_compute. reflexivity. Qed.

Example sample_scores :
  report_score (review {[ "app.py" := "draft 1" ]}) = 95
  ∧ report_score (review {[ "app.py" := "draft 2" ]}) = 40.
Proof. vm_compute. done. Qed.

(** *** The claims on the loop *)

Section Claims.
Context {World Plan Task : Type} `{!Workers World Plan Task}.


(** C3. The loop always ends, after at most [max_iterations] iterations:
    [iterative_develop] returns, the loop condition is false at the exit,
    and the number of versions generated and evaluated is the final
    iteration count, which is at most [max_iterations]. *)
Theorem retry_loop_bounded (threshold : Z) (max_iterations : nat)
    (p : Plan) (w : World) :
  ∃ s', run_loop threshold max_iterations p w = Some s'
        ∧ loop_cond max_iterations s' = false
        ∧ (iteration s' ≤ max_iterations)%nat
        ∧ length (history s') = iteration s'.
Proof. apply run_loop_total. Qed.

(** C4, as the code has it. When the loop runs out of iterations with the
    plan not complete, [iterative_develop] returns normally, with no failure
    state or reason, after exactly [max_iterations] iterations; what it
    returns is the last version produced: every iteration's new files
    merged, in order, over the files before it. *)
Theorem exhausted_returns_last {Req : Type} (requirements : Req)
    (threshold : Z) (max_iterations : nat) (p : Plan) (w : World)
    (s' : LoopState (World := World) (Plan := Plan)) :
  run_loop threshold max_iterations p w = Some s' →
  is_complete (plan s') = false →
  iterative_develop threshold requirements max_iterations p w
  = Some (current_files s')
  ∧ iteration s' = max_iterations
  ∧ length (history s') = max_iterations
  ∧ current_files s' = from_option version_files ∅ (last (history s'))
  ∧ current_files s' = merged (history s').
Proof.
  intros Hrun Hopen.
  destruct (run_loop_total threshold max_iterations p w)
    as (s'' & Hrun' & Hexit & Hle & Hlen).
  rewrite Hrun in Hrun'. injection Hrun' as <-.
  assert (iteration s' = max_iterations) as Hit.
  { apply exit_incomplete in Hexit; [lia|done]. }
  destruct (run_loop_coherent threshold max_iterations p w s' Hrun)
    as (_ & Hmerged & Hlast).
  unfold iterative_develop. rewrite Hrun. simpl.
  repeat split; try done. by rewrite Hlen.
Qed.

End Claims.

Lemma exhausted_run : run_loop default_threshold 2 sample_plan 0%nat = Some exhausted_state.
Proof. vm_compute. reflexivity. Defined.

Lemma exhausted_returns_last_witness :
  run_loop default_threshold 2 sample_plan 0%nat = Some exhausted_state
  ∧ is_complete (plan exhausted_state) = false
  ∧ iterative_develop default_threshold "a todo app" 2 sample_plan 0%nat
    = Some {[ "app.py" := "draft 2" ]}.
Proof.
  split; [exact exhausted_run|]. split; [reflexivity|].
  exact (proj1 (exhausted_returns_last "a todo app" default_threshold 2
                  sample_plan 0%nat exhausted_state exhausted_run eq_refl)).
Defined.

(** C4, as the claim has it, fails: with two iterations allowed, the first
    draft scores 95 and the second 40, neither passes, and the loop returns
    the second. *)
Lemma exhausted_output_not_best :
  ∃ s', run_loop default_threshold 2 sample_plan 0%nat = Some s'
        ∧ is_complete (plan s') = false
        ∧ (version_files <$> best_version (history s'))
          = Some {[ "app.py" := "draft 1" ]}
        ∧ (report_score ∘ version_quality <$> best_version (history s')) = Some 95
        ∧ current_files s' = {[ "app.py" := "draft 2" ]}
        ∧ report_score (review (current_files s')) = 40
        ∧ Some (current_files s') ≠ (version_files <$> best_version (history s')).
Proof.
  exists exhausted_state. split; [exact exhausted_run|].
  vm_compute. repeat split; try reflexivity. discriminate.
Qed.

End DevLoopFacts.

(** ** A plan with several tasks *)

Module TaskPlanFacts.
Import QualityGate DevLoop TaskPlan.


End TaskPlanFacts.

(** ** The WebSocket client *)

Module WebSocketClientFacts.
Import WebSocketClient.

(** *** Reconnecting *)

Lemma stopHeartbeat_timeouts c : timeouts (stopHeartbeat c) = timeouts c.
Proof. unfold stopHeartbeat. by destruct (heartbeatIntervalRef c). Qed.

Lemma stopHeartbeat_sockets c : sockets (stopHeartbeat c) = sockets c.
Proof. unfold stopHeartbeat. by destruct (heartbeatIntervalRef c). Qed.

Lemma scheduleReconnect_timeouts r c :
  (seen_reconnectAttempts r < MAX_RECONNECT_ATTEMPTS)%nat →
  timeouts (scheduleReconnect r c) = timeouts c ++ [reconnect_timer r].
Proof.
  intros Hlt. unfold scheduleReconnect.
  destruct (Nat.leb_spec MAX_RECONNECT_ATTEMPTS (seen_reconnectAttempts r)); [lia|].
  reflexivity.
Qed.

Lemma scheduleReconnect_sockets r c : sockets (scheduleReconnect r c) = sockets c.
Proof. unfold scheduleReconnect. by case_match. Qed.

(** What a close event schedules, for a socket whose handlers were created
    in render [r]. *)
Lemma onclose_timeouts r code c :
  timeouts (onclose r code c)
  = if negb (code =? 1000) && (seen_reconnectAttempts r <? MAX_RECONNECT_ATTEMPTS)%nat
    then timeouts c ++ [reconnect_timer r]
    else timeouts c.
Proof.
  unfold onclose.
  destruct (negb (code =? 1000)
            && (seen_reconnectAttempts r <? MAX_RECONNECT_ATTEMPTS)%nat) eqn:Hif.
  - apply andb_true_iff in Hif as [_ Hlt%Nat.ltb_lt].
    rewrite scheduleReconnect_timeouts by done.
    by rewrite stopHeartbeat_timeouts.
  - by rewrite stopHeartbeat_timeouts.
Qed.

(** A clean close (code 1000) schedules nothing. *)
Lemma onclose_clean r c : timeouts (onclose r 1000 c) = timeouts c.
Proof. by rewrite onclose_timeouts. Qed.

Lemma onclose_sockets r code c : sockets (onclose r code c) = sockets c.
Proof.
  unfold onclose. case_match.
  - by rewrite scheduleReconnect_sockets, stopHeartbeat_sockets.
  - by rewrite stopHeartbeat_sockets.
Qed.

Lemma Forall_alter_same {A} (P : A → Prop) (f : A → A) (l : list A) (i : nat) :
  (∀ x, P x → P (f x)) → Forall P l → Forall P (alter f i l).
Proof.
  intros Hf Hl. apply Forall_lookup. intros j y.
  destruct (decide (i = j)) as [->|Hne].
  - rewrite list_lookup_alter_eq. intros (x & Hx & ->)%fmap_Some.
    apply Hf. by eapply Forall_lookup_1.
  - rewrite list_lookup_alter_ne by done. by apply Forall_lookup_1.
Qed.

Lemma owned_by_sockets r c f id :
  (∀ sock, handlers (f sock) = handlers sock) →
  owned_by r c → owned_by r (set_sockets (alter f id (sockets c)) c).
Proof.
  intros Hf [Hs Ht]. split; [|done]. simpl.
  apply Forall_alter_same; [|done]. intros sock. by rewrite Hf.
Qed.

Lemma owned_by_clear r c id :
  owned_by r c → owned_by r (set_timeouts (alter clear_timeout id (timeouts c)) c).
Proof.
  intros [Hs Ht]. split; [done|]. simpl.
  apply Forall_alter_same; [|done]. by intros t.
Qed.

Lemma owned_by_connect r c : owned_by r c → owned_by r (connect r c).
Proof.
  intros [Hs Ht]. unfold connect. repeat case_match; try done.
  split; [|done]. simpl. apply Forall_app. split; [done|].
  by apply Forall_singleton.
Qed.

Lemma owned_by_stopHeartbeat r c : owned_by r c → owned_by r (stopHeartbeat c).
Proof.
  intros [Hs Ht]. split.
  - by rewrite stopHeartbeat_sockets.
  - by rewrite stopHeartbeat_timeouts.
Qed.

Lemma owned_by_onclose r code c : owned_by r c → owned_by r (onclose r code c).
Proof.
  intros [Hs Ht]. split.
  - by rewrite onclose_sockets.
  - rewrite onclose_timeouts. case_match; [|done].
    apply Forall_app. split; [done|]. by apply Forall_singleton.
Qed.

Lemma owned_by_disconnect r c : owned_by r c → owned_by r (disconnect c).
Proof.
  intros Hc. unfold disconnect.
  assert (owned_by r
            match websocketRef c with
            | Some id =>
                set_websocketRef None
                  (set_sockets (alter close_socket id (sockets c)) c)
            | None => c
            end) as H1.
  { destruct (websocketRef c); [|done].
    by apply (owned_by_sockets r c close_socket). }
  apply owned_by_stopHeartbeat in H1. revert H1.
  generalize (stopHeartbeat
                match websocketRef c with
                | Some id =>
                    set_websocketRef None
                      (set_sockets (alter close_socket id (sockets c)) c)
                | None => c
                end).
  intros c' Hc'. unfold clearReconnectTimeout.
  destruct (reconnectTimeoutRef c'); [|done].
  by apply (owned_by_clear r c').
Qed.

Lemma owned_by_sendMessage r m c : owned_by r c → owned_by r (sendMessage m c).2.
Proof.
  intros Hc. unfold sendMessage. repeat case_match; try done.
  simplify_eq/=. by apply (owned_by_sockets r c (push m)).
Qed.

Lemma owned_by_step r c i :
  is_effect i = false → owned_by r c → owned_by r (step c i).
Proof.
  intros Hi Hc.
  destruct i as [| | | |m|id|id data|id|id code|id|id]; simpl; try done.
  - by apply owned_by_disconnect.
  - by apply owned_by_disconnect.
  - by apply owned_by_sendMessage.
  - destruct (sockets c !! id) as [sock|] eqn:Hsock; [|done].
    case_bool_decide; [|done].
    by apply (owned_by_sockets r c (set_readyState OPEN)).
  - destruct (sockets c !! id) as [sock|] eqn:Hsock; [|done].
    case_bool_decide; [|done].
    unfold onmessage. destruct data as [message|]; [|done].
    unfold handleMessage. repeat case_match; done.
  - destruct (sockets c !! id) as [sock|] eqn:Hsock; [|done].
    by case_bool_decide.
  - destruct (sockets c !! id) as [sock|] eqn:Hsock; [|done].
    case_bool_decide; [done|].
    assert (handlers sock = r) as ->.
    { destruct Hc as [Hs _]. by apply (Forall_lookup_1 _ _ _ _ Hs Hsock). }
    apply owned_by_onclose.
    by apply (owned_by_sockets r c (set_readyState CLOSED)).
  - destruct (timeouts c !! id) as [t|] eqn:Ht; [|done].
    destruct (pending t); [|done].
    assert (callback t = r) as ->.
    { destruct Hc as [_ Hts]. by apply (Forall_lookup_1 _ _ _ _ Hts Ht). }
    apply owned_by_connect. by apply owned_by_clear.
  - destruct (intervals c !! id) as [[]|]; try done.
    unfold heartbeat_tick. case_match; [|done]. by apply owned_by_sendMessage.
Qed.

Lemma owned_by_run r inputs c :
  forallb (λ i, negb (is_effect i)) inputs = true →
  owned_by r c → owned_by r (run inputs c).
Proof.
  revert c. induction inputs as [|i inputs IH]; intros c Hin Hc; [done|].
  simpl in Hin. apply andb_true_iff in Hin as [Hi Hin].
  apply IH; [done|]. apply owned_by_step; [|done]. by apply negb_true_iff.
Qed.

(** *** The heartbeat *)

Lemma live_socket_open id hb c : live_connection id hb c → current_socket_open c = true.
Proof.
  intros (_ & _ & Href & (sock & Hsock & Hopen) & _).
  unfold current_socket_open. rewrite Href, Hsock. by apply bool_decide_eq_true.
Qed.

Lemma pings_sent_push id c :
  is_Some (sockets c !! id) →
  pings_sent id (set_sockets (alter (push ping) id (sockets c)) c)
  = S (pings_sent id c).
Proof.
  intros [sock Hsock]. unfold pings_sent, set_sockets. cbn [sockets].
  rewrite list_lookup_alter_eq, Hsock. cbn [fmap option_fmap option_map push outbox].
  rewrite filter_app, length_app. simpl.
  rewrite filter_cons_True by done. simpl. lia.
Qed.

Lemma heartbeat_tick_live id hb c :
  live_connection id hb c →
  live_connection id hb (heartbeat_tick c)
  ∧ pings_sent id (heartbeat_tick c) = S (pings_sent id c)
  ∧ timeouts (heartbeat_tick c) = timeouts c.
Proof.
  intros Hlive. pose proof (live_socket_open _ _ _ Hlive) as Hopen.
  destruct Hlive as (Hconn & Hstatus & Href & (sock & Hsock & Hready) & Hhb & Hint).
  assert (heartbeat_tick c = set_sockets (alter (push ping) id (sockets c)) c) as ->.
  { unfold heartbeat_tick, sendMessage. by rewrite Hopen, Href. }
  split; [|split; [|done]].
  - repeat split; try done.
    exists (push ping sock). split; [|done].
    unfold set_sockets. cbn [sockets].
    by rewrite list_lookup_alter_eq, Hsock.
  - apply pings_sent_push. by exists sock.
Qed.

Lemma onmessage_live r data id hb c :
  live_connection id hb c →
  live_connection id hb (onmessage r data c)
  ∧ pings_sent id (onmessage r data c) = pings_sent id c
  ∧ timeouts (onmessage r data c) = timeouts c.
Proof.
  intros Hlive. unfold onmessage, handleMessage.
  destruct data as [message|]; [|done].
  repeat case_match; done.
Qed.

Lemma step_quiet id hb c i :
  quiet id hb i → live_connection id hb c →
  live_connection id hb (step c i)
  ∧ pings_sent id (step c i)
    = (pings_sent id c + if is_tick hb i then 1 else 0)%nat
  ∧ timeouts (step c i) = timeouts c.
Proof.
  intros [->|[data ->]] Hlive; simpl.
  - destruct Hlive as (? & ? & ? & ? & ? & Hint) eqn:Heq. rewrite Hint.
    rewrite bool_decide_eq_true_2 by done.
    destruct (heartbeat_tick_live id hb c) as (H1 & H2 & H3); [done|].
    split; [done|]. split; [lia|done].
  - destruct Hlive as (? & ? & ? & (sock & Hsock & Hopen) & ? & ?) eqn:Heq.
    rewrite Hsock, bool_decide_eq_true_2 by done.
    destruct (onmessage_live (handlers sock) data id hb c) as (H1 & H2 & H3); [done|].
    split; [done|]. split; [lia|done].
Qed.

Lemma ticks_cons hb i inputs :
  ticks hb (i :: inputs) = ((if is_tick hb i then 1 else 0) + ticks hb inputs)%nat.
Proof.
  unfold ticks. rewrite filter_cons. by destruct (is_tick hb i).
Qed.

(** *** Worked examples *)

Lemma connected_client_live : live_connection 0 0 connected_client.
Proof.
  repeat split.
  eexists. split; [reflexivity|]. reflexivity.
Defined.

Example clean_close_is_final :
  timeouts (run [SocketClose 0 1000] connected_client) = []
  ∧ intervals (run [SocketClose 0 1000] connected_client) = [false].
Proof. vm_compute. done. Qed.

Example first_failure_waits_five_seconds :
  delay <$> timeouts (run [SocketClose 0 1006] connected_client) = [5000].
Proof. vm_compute. done. Qed.

Example backoff_table :
  backoff <$> seq 0 5 = [5000; 10000; 20000; 30000; 30000].
Proof. vm_compute. done. Qed.

Example history_keeps_100 :
  length (messageHistory
            (run (replicate 150 (SocketMessage 0 (Some {[ "type" := "pong" ]})))
               connected_client)) = 100%nat.
Proof. vm_compute. done. Qed.

(** *** The heartbeat and the reconnects *)

(** The client's own heartbeat. The client sends a ping at every firing
    of its heartbeat interval while the socket is open, idle or not, and
    counts no reply. While nothing happens but firings of that interval and
    messages arriving, whatever they are, the connection stays marked
    connected, the socket stays open, the interval stays armed, no
    reconnect is scheduled, and every firing has sent one more ping. *)
Theorem heartbeat_never_gives_up (id hb : nat) (inputs : list Input) (c : Client) :
  Forall (quiet id hb) inputs →
  live_connection id hb c →
  live_connection id hb (run inputs c)
  ∧ pings_sent id (run inputs c) = (pings_sent id c + ticks hb inputs)%nat
  ∧ timeouts (run inputs c) = timeouts c.
Proof.
  intros Hquiet. revert c.
  induction Hquiet as [|i inputs Hi _ IH]; intros c Hlive.
  - split; [done|]. split; [|done]. unfold ticks. simpl. lia.
  - destruct (step_quiet id hb c i Hi Hlive) as (Hlive' & Hpings & Htimeouts).
    destruct (IH (step c i) Hlive') as (Hlive'' & Hpings' & Htimeouts').
    change (run (i :: inputs) c) with (run inputs (step c i)).
    split; [done|]. split; [|congruence].
    rewrite Hpings', Hpings, ticks_cons. lia.
Qed.

Lemma heartbeat_never_gives_up_witness :
  Forall (quiet 0 0) (replicate 4 (IntervalFire 0))
  ∧ live_connection 0 0 connected_client
  ∧ live_connection 0 0 (run (replicate 4 (IntervalFire 0)) connected_client).
Proof.
  assert (Hquiet : Forall (quiet 0 0) (replicate 4 (IntervalFire 0))).
  { repeat (apply List.Forall_cons; [by left|]). apply List.Forall_nil. }
  split; [exact Hquiet|]. split; [exact connected_client_live|].
  exact (proj1 (heartbeat_never_gives_up 0 0 (replicate 4 (IntervalFire 0))
                  connected_client Hquiet connected_client_live)).
Defined.

(** Four pings of the client in a row go unanswered (no message at all
    has arrived), and the connection is still marked connected, its socket
    open and its interval armed; the fifth firing sends a fifth ping. *)
Lemma four_missed_pongs_stay_connected :
  pings_sent 0 (run (replicate 4 (IntervalFire 0)) connected_client) = 4%nat
  ∧ messageHistory (run (replicate 4 (IntervalFire 0)) connected_client) = []
  ∧ isConnected (run (replicate 4 (IntervalFire 0)) connected_client) = true
  ∧ readyState <$> sockets (run (replicate 4 (IntervalFire 0)) connected_client)
    = [OPEN]
  ∧ intervals (run (replicate 4 (IntervalFire 0)) connected_client) = [true]
  ∧ pings_sent 0 (run (replicate 5 (IntervalFire 0)) connected_client) = 5%nat.
Proof. vm_compute. done. Qed.

(** X7. Once the page is mounted, every reconnect that is ever scheduled,
    after any sequence of socket, timer and interval callbacks, waits the
    base interval: the handlers read the attempt count of the render that
    mounted, which stays 0. *)
Theorem reconnects_never_back_off (userId : string) (inputs : list Input) :
  forallb (λ i, negb (is_effect i)) inputs = true →
  Forall (λ t, delay t = RECONNECT_INTERVAL)
    (timeouts (run inputs (step initial_client (EffectRun true (Some userId))))).
Proof.
  intros Hin.
  pose (r := render true (Some userId) initial_client).
  assert (owned_by r (step initial_client (EffectRun true (Some userId)))) as Hmount.
  { split; simpl; [|done]. by apply Forall_singleton. }
  destruct (owned_by_run r inputs _ Hin Hmount) as [_ Htimeouts].
  eapply Forall_impl; [exact Htimeouts|].
  by intros t [_ ->].
Qed.

(** X8. Once the page is mounted, however many reconnects have failed
    before, an abnormal close (any code but 1000) of a socket that is not
    closed yet schedules one more reconnect, again after the base
    interval. *)
Theorem abnormal_close_always_reconnects
    (userId : string) (inputs : list Input) (id : nat) (code : Z) (sock : Socket) :
  forallb (λ i, negb (is_effect i)) inputs = true →
  sockets (run inputs (step initial_client (EffectRun true (Some userId)))) !! id
  = Some sock →
  readyState sock ≠ CLOSED →
  code ≠ 1000 →
  timeouts (step (run inputs (step initial_client (EffectRun true (Some userId))))
              (SocketClose id code))
  = timeouts (run inputs (step initial_client (EffectRun true (Some userId))))
    ++ [{| delay := RECONNECT_INTERVAL;
           callback := render true (Some userId) initial_client;
           pending := true |}].
Proof.
  intros Hin Hsock Hopen Hcode.
  pose (r := render true (Some userId) initial_client).
  assert (owned_by r (step initial_client (EffectRun true (Some userId)))) as Hmount.
  { split; simpl; [|done]. by apply Forall_singleton. }
  destruct (owned_by_run r inputs _ Hin Hmount) as [Hsockets _].
  assert (handlers sock = r) as Hr.
  { by apply (Forall_lookup_1 _ _ _ _ Hsockets Hsock). }
  revert Hsock. clear Hsockets.
  generalize (run inputs (step initial_client (EffectRun true (Some userId)))).
  intros c Hsock. simpl. rewrite Hsock, bool_decide_eq_false_2 by done.
  rewrite onclose_timeouts, Hr.
  destruct (Z.eqb_spec code 1000) as [|_]; [done|]. reflexivity.
Qed.

(** C10 on an outage: twelve abnormal closes in a row, each followed by its
    reconnect timer. The claim has the delays 5000, 10000, 20000, 30000, ...
    and no reconnect after the tenth failure. The code schedules twelve
    reconnects, each after 5000 ms, while the attempt counter in the React
    state does reach 12. *)
Theorem reconnect_backoff_stale :
  delay <$> timeouts (run (outage 12) initial_client) = replicate 12 5000
  ∧ reconnectAttempts (run (outage 12) initial_client) = 12%nat
  ∧ backoff 1 = 10000
  ∧ (MAX_RECONNECT_ATTEMPTS < 12)%nat.
Proof. vm_compute. repeat split; try done. lia. Qed.

End WebSocketClientFacts.

(** ** Case memory *)

Module CaseMemoryFacts.
Import CaseMemory.

Section Retrieval.
Context {Ctx : Type} `{!Memory Ctx}.

#[local] Instance ranks_before_total context : Total (ranks_before context).
Proof. intros a b. unfold ranks_before. lia. Qed.

#[local] Instance ranks_before_trans context : Transitive (ranks_before context).
Proof. intros a b c. unfold ranks_before. lia. Qed.

Lemma sort_by_similarity_sorted all_cases context :
  StronglySorted (ranks_before context) (sort_by_similarity all_cases context).
Proof. apply StronglySorted_merge_sort; apply _. Qed.

Lemma sort_by_similarity_perm all_cases context :
  sort_by_similarity all_cases context ≡ₚ all_cases.
Proof. apply merge_sort_Permutation. Qed.

Lemma find_similar_cases_sorted context :
  StronglySorted (ranks_before context) (find_similar_cases context).
Proof.
  unfold find_similar_cases. simpl.
  pose proof (sort_by_similarity_sorted (candidates context) context) as Hs.
  rewrite <- (take_drop 10 (sort_by_similarity _ _)) in Hs.
  by apply StronglySorted_app_1_l in Hs.
Qed.

Lemma StronglySorted_lookup {A} (R : relation A) (l : list A) i j a b :
  StronglySorted R l → l !! i = Some a → l !! j = Some b → (i < j)%nat → R a b.
Proof.
  intros Hs. revert i j. induction Hs as [|x l Hs IH Hx]; intros i j Hi Hj Hij.
  - by rewrite lookup_nil in Hi.
  - destruct j as [|j]; [lia|]. simpl in Hj. destruct i as [|i].
    + simpl in Hi. injection Hi as ->.
      eapply Forall_lookup_1; [exact Hx|exact Hj].
    + simpl in Hi. apply (IH i j); [done|done|lia].
Qed.

(** C7, as the code has it. For every request context,
    [find_similar_cases] returns at most 10 cases (the limit is fixed; there
    is no [k]): the first 10 of the candidate cases in ranking order. A case
    listed earlier is at least as similar as one listed later, and at equal
    similarity has at least its final quality score; the cases left out rank
    no higher than those returned. When recency raises the similarity score
    at equal keyword overlap, a more recent case is listed before an older
    one with the same keyword overlap. *)
Theorem find_similar_ranked (context : Ctx) :
  (∀ overlap t1 t2, (t1 < t2)%nat → combine overlap t1 < combine overlap t2) →
  length (find_similar_cases context) = Nat.min 10 (length (candidates context))
  ∧ (∀ c, c ∈ find_similar_cases context → c ∈ candidates context)
  ∧ (∀ i j a b,
       find_similar_cases context !! i = Some a →
       find_similar_cases context !! j = Some b →
       (i < j)%nat →
       similarity context b ≤ similarity context a
       ∧ (similarity context a = similarity context b →
          final_quality_score b ≤ final_quality_score a))
  ∧ (∀ i j a b,
       find_similar_cases context !! i = Some a →
       find_similar_cases context !! j = Some b →
       keyword_overlap (extract_keywords context) a
       = keyword_overlap (extract_keywords context) b →
       (recorded_at b < recorded_at a)%nat →
       (i < j)%nat)
  ∧ (∀ a b,
       a ∈ find_similar_cases context →
       b ∈ drop 10 (sort_by_similarity (candidates context) context) →
       ranks_before context a b).
Proof.
  intros Hrecency.
  pose proof (find_similar_cases_sorted context) as Hsorted.
  pose proof (sort_by_similarity_sorted (candidates context) context) as Hall.
  pose proof (sort_by_similarity_perm (candidates context) context) as Hperm.
  split; [|split; [|split; [|split]]].
  - unfold find_similar_cases. simpl. fold (candidates context).
    by rewrite length_take, (Permutation_length Hperm).
  - intros c Hc. rewrite <- Hperm.
    rewrite <- (take_drop 10 (sort_by_similarity _ _)).
    apply elem_of_app. by left.
  - intros i j a b Hi Hj Hij.
    pose proof (StronglySorted_lookup _ _ i j a b Hsorted Hi Hj Hij) as Hab.
    unfold ranks_before in Hab. lia.
  - intros i j a b Hi Hj Hoverlap Hrecent.
    assert (similarity context b < similarity context a) as Hsim.
    { unfold similarity. rewrite Hoverlap. by apply Hrecency. }
    destruct (Nat.lt_trichotomy i j) as [Hlt|[->|Hgt]]; [done| |].
    + rewrite Hi in Hj. injection Hj as ->. lia.
    + pose proof (StronglySorted_lookup _ _ j i b a Hsorted Hj Hi Hgt) as Hba.
      unfold ranks_before in Hba. lia.
  - intros a b Ha Hb.
    rewrite <- (take_drop 10 (sort_by_similarity _ _)) in Hall.
    by apply (StronglySorted_app_1_elem_of _ _ _ a b Hall).
Qed.

End Retrieval.

Example sample_result_order :
  (λ c, (recorded_at c, final_quality_score c)) <$> sample_result
  = [ (9%nat, 81); (4%nat, 60); (1%nat, 95); (1%nat, 70); (7%nat, 80);
      (6%nat, 92); (5%nat, 88); (2%nat, 90); (2%nat, 50); (10%nat, 99) ].
Proof. vm_compute. reflexivity. Qed.

Lemma sample_combine_recency overlap t1 t2 :
  (t1 < t2)%nat → sample_combine overlap t1 < sample_combine overlap t2.
Proof. unfold sample_combine. lia. Defined.

Lemma find_similar_ranked_witness :
  (∀ overlap t1 t2, (t1 < t2)%nat →
     sample_combine overlap t1 < sample_combine overlap t2)
  ∧ length sample_result = Nat.min 10 12.
Proof.
  split; [exact sample_combine_recency|].
  exact (proj1 (find_similar_ranked (Ctx := list string) ["todo"; "app"]
                  sample_combine_recency)).
Defined.

(** C7, as the claim has it, fails: asked with any [k] below 10, such as 3,
    the function still returns 10 cases out of the 12 candidates. *)
Lemma find_similar_exceeds_k :
  length sample_result = 10%nat
  ∧ ¬ (∀ k : nat, (length sample_result ≤ k)%nat).
Proof.
  split; [vm_compute; reflexivity|].
  intros Hk. specialize (Hk 3%nat). vm_compute in Hk. lia.
Qed.

End CaseMemoryFacts.

(** ** Run registry *)

Module RunRegistryFacts.
Import RunRegistry.

(** *** The registry stays keyed by project *)

Lemma well_keyed_empty : well_keyed empty_registry.
Proof. intros k r. simpl. by rewrite lookup_empty. Qed.

Lemma well_keyed_createRun p request reg :
  well_keyed reg → well_keyed (createRun p request reg).2.
Proof.
  intros Hreg. unfold createRun. destruct (has_active_run p reg); [done|].
  intros k r. simpl. destruct (decide (p = k)) as [->|Hne].
  - rewrite lookup_insert_eq. by intros [= <-].
  - rewrite lookup_insert_ne by done. apply Hreg.
Qed.

Lemma set_status_project st r : project_id (set_status st r) = project_id r.
Proof. unfold set_status. by destruct (terminal (status r)). Qed.

Lemma well_keyed_transition p st reg : well_keyed reg → well_keyed (transition p st reg).
Proof.
  intros Hreg k r. simpl. destruct (decide (p = k)) as [->|Hne].
  - rewrite lookup_alter_eq. intros (r0 & Hr0 & ->)%fmap_Some.
    rewrite set_status_project. by apply Hreg.
  - rewrite lookup_alter_ne by done. apply Hreg.
Qed.

Lemma well_keyed_evict p reg : well_keyed reg → well_keyed (evict p reg).
Proof.
  intros Hreg. unfold evict. destruct (table reg !! p) as [r0|]; [|done].
  destruct (terminal (status r0)); [|done].
  intros k r. simpl. intros [_ Hk]%lookup_delete_Some. by apply Hreg.
Qed.

Lemma well_keyed_serve reg c : well_keyed reg → well_keyed (serve reg c).2.
Proof.
  intros Hreg. destruct c as [p request|p st|p]; simpl.
  - pose proof (well_keyed_createRun p request reg Hreg).
    by destruct (createRun p request reg).
  - by apply well_keyed_transition.
  - by apply well_keyed_evict.
Qed.

Lemma well_keyed_serve_all calls reg :
  well_keyed reg → well_keyed (serve_all calls reg).2.
Proof.
  revert reg. induction calls as [|c calls IH]; intros reg Hreg; [done|].
  simpl. pose proof (well_keyed_serve reg c Hreg) as H1.
  destruct (serve reg c) as [res reg1]. specialize (IH reg1 H1).
  by destruct (serve_all calls reg1).
Qed.

Lemma active_runs_at_most_one p reg :
  well_keyed reg → (length (active_runs p reg) ≤ 1)%nat.
Proof.
  intros Hreg. unfold active_runs.
  pose proof (NoDup_fst_map_to_list (table reg)) as Hnodup.
  assert (∀ kr, kr ∈ filter (λ kr : string * Run,
                               project_id kr.2 = p ∧ active kr.2 = true)
                       (map_to_list (table reg)) → kr.1 = p) as Hkey.
  { intros [k r] [[Hp _] Hin%elem_of_map_to_list]%list_elem_of_filter.
    simpl in *. by rewrite <- (Hreg k r Hin). }
  assert (NoDup (filter (λ kr : string * Run,
                           project_id kr.2 = p ∧ active kr.2 = true)
                   (map_to_list (table reg))).*1) as Hnd.
  { eapply sublist_NoDup; [exact Hnodup|].
    apply fmap_sublist, sublist_filter. }
  destruct (filter _ (map_to_list (table reg))) as [|kr1 [|kr2 l]]; simpl; [lia|lia|].
  exfalso. rewrite !fmap_cons in Hnd.
  apply NoDup_cons in Hnd as [Hnotin _]. apply Hnotin.
  rewrite (Hkey kr1), (Hkey kr2); [left| |]; set_solver.
Qed.

(** *** Check-and-create *)

Lemma createRun_result p request reg :
  (createRun p request reg).1
  = if has_active_run p reg then ConflictError else RunId (next_run_id reg).
Proof. unfold createRun. by destruct (has_active_run p reg). Qed.

Lemma createRun_rejected p request reg :
  has_active_run p reg = true → createRun p request reg = (ConflictError, reg).
Proof. unfold createRun. by intros ->. Qed.

Lemma createRun_same p request reg :
  has_active_run p (createRun p request reg).2 = true.
Proof.
  unfold createRun. destruct (has_active_run p reg) eqn:Hp; [done|].
  unfold has_active_run. simpl. by rewrite lookup_insert_eq.
Qed.

Lemma createRun_other p q request reg :
  q ≠ p → has_active_run p (createRun q request reg).2 = has_active_run p reg.
Proof.
  intros Hne. unfold createRun. destruct (has_active_run q reg); [done|].
  unfold has_active_run. simpl. by rewrite lookup_insert_ne.
Qed.

Lemma serve_all_cons c calls reg :
  serve_all (c :: calls) reg
  = ((serve reg c).1 :: (serve_all calls (serve reg c).2).1,
     (serve_all calls (serve reg c).2).2).
Proof.
  simpl. destruct (serve reg c) as [res reg1]. simpl.
  by destruct (serve_all calls reg1).
Qed.

Lemma serve_createRun p request reg :
  serve reg (CreateRun p request)
  = (Some (createRun p request reg).1, (createRun p request reg).2).
Proof. simpl. by destruct (createRun p request reg). Qed.

Lemma requests_for_cons p c calls :
  requests_for p (c :: calls)
  = ((if is_create_for p c then 1 else 0) + requests_for p calls)%nat.
Proof. unfold requests_for. rewrite filter_cons. by destruct (is_create_for p c). Qed.

Lemma burst_outcome (burst : list (string * string)) (reg : Registry) (p : string) :
  created_for p (creations burst) (serve_all (creations burst) reg).1
  = (if has_active_run p reg then 0
     else Nat.min 1 (requests_for p (creations burst)))%nat
  ∧ (created_for p (creations burst) (serve_all (creations burst) reg).1
     + rejected_for p (creations burst) (serve_all (creations burst) reg).1
     = requests_for p (creations burst))%nat
  ∧ has_active_run p (serve_all (creations burst) reg).2
    = has_active_run p reg || (0 <? requests_for p (creations burst))%nat.
Proof.
  revert reg. induction burst as [|[q request] burst IH]; intros reg.
  { simpl. rewrite orb_false_r. by destruct (has_active_run p reg). }
  change (creations ((q, request) :: burst))
    with (CreateRun q request :: creations burst).
  rewrite serve_all_cons, requests_for_cons, serve_createRun.
  cbn [fst snd created_for rejected_for is_create_for].
  destruct (IH (createRun q request reg).2) as (Hcreated & Hsum & Hactive).
  rewrite Hactive, createRun_result.
  revert Hcreated Hsum.
  generalize (created_for p (creations burst)
                (serve_all (creations burst) (createRun q request reg).2).1).
  generalize (rejected_for p (creations burst)
                (serve_all (creations burst) (createRun q request reg).2).1).
  generalize (requests_for p (creations burst)).
  intros n rejected created Hcreated Hsum.
  case_bool_decide as Hq.
  - subst q. rewrite createRun_same in Hcreated. rewrite createRun_same.
    cbn [orb] in *.
    destruct (has_active_run p reg); cbn [orb];
      (split; [lia|split; [lia|done]]).
  - rewrite createRun_other in Hcreated by done.
    rewrite createRun_other by done.
    destruct (has_active_run p reg); cbn [orb Nat.add] in *;
      (split; [lia|split; [lia|done]]).
Qed.

Lemma burst_keeps_active_entry (burst : list (string * string)) (reg : Registry) p :
  has_active_run p reg = true →
  table (serve_all (creations burst) reg).2 !! p = table reg !! p.
Proof.
  revert reg. induction burst as [|[q request] burst IH]; intros reg Hp; [done|].
  change (creations ((q, request) :: burst))
    with (CreateRun q request :: creations burst).
  rewrite serve_all_cons, serve_createRun. cbn [fst snd].
  destruct (decide (q = p)) as [->|Hne].
  - rewrite createRun_rejected by done. by apply IH.
  - rewrite IH by (by rewrite createRun_other).
    unfold createRun. destruct (has_active_run q reg); [done|].
    simpl. by rewrite lookup_insert_ne.
Qed.

(** *** Worked example *)

Example registry_session :
  (serve_all [ CreateRun "shop" "build a shop"; CreateRun "shop" "again";
               CreateRun "blog" "build a blog"; Transition "shop" Failed;
               CreateRun "shop" "retry"; CreateRun "blog" "again" ]
     empty_registry).1
  = [ Some (RunId 0); Some ConflictError; Some (RunId 1); None;
      Some (RunId 2); Some ConflictError ].
Proof. vm_compute. reflexivity. Qed.

(** *** The claim on the registry *)

(** C5. After any history of calls, the registry holds at most one active
    run per project. Let a burst of creation requests, in whatever order
    their atomic sections interleave, follow: for every project, exactly one
    request creates a run when the project had no active run (and at least
    one request came), none does when it had one; every other request for the
    project gets the conflict error; and a project that had an active run
    keeps its entry untouched, so nothing was queued. *)
Theorem one_active_run_per_project
    (calls : list Call) (burst : list (string * string)) (p : string) :
  let reg := (serve_all calls empty_registry).2 in
  let out := serve_all (creations burst) reg in
  (length (active_runs p reg) ≤ 1)%nat
  ∧ (length (active_runs p out.2) ≤ 1)%nat
  ∧ created_for p (creations burst) out.1
    = (if has_active_run p reg then 0
       else Nat.min 1 (requests_for p (creations burst)))%nat
  ∧ (created_for p (creations burst) out.1
     + rejected_for p (creations burst) out.1
     = requests_for p (creations burst))%nat
  ∧ (has_active_run p reg = true → table out.2 !! p = table reg !! p).
Proof.
  intros reg out.
  assert (well_keyed reg) as Hreg.
  { apply well_keyed_serve_all, well_keyed_empty. }
  assert (well_keyed out.2) as Hout by by apply well_keyed_serve_all.
  destruct (burst_outcome burst reg p) as (Hcreated & Hsum & _).
  split; [by apply active_runs_at_most_one|].
  split; [by apply active_runs_at_most_one|].
  split; [done|]. split; [done|].
  apply burst_keeps_active_entry.
Qed.

Lemma one_active_run_per_project_witness :
  created_for "shop" (creations [("shop", "again"); ("blog", "b"); ("shop", "c")])
    (serve_all (creations [("shop", "again"); ("blog", "b"); ("shop", "c")])
       (serve_all [CreateRun "shop" "build a shop"] empty_registry).2).1
  = 0%nat.
Proof.
  exact (proj1 (proj2 (proj2
    (one_active_run_per_project [CreateRun "shop" "build a shop"]
       [("shop", "again"); ("blog", "b"); ("shop", "c")] "shop")))).
Defined.

End RunRegistryFacts.

(** ** The heartbeat of the Event Hub *)

Module HubHeartbeatFacts.
Import HubHeartbeat.



(** *** One Subscription *)







(** *** The Hub *)

Section Hub.
Context {config : HeartbeatConfig}.








End Hub.

(** Four keepalives go unanswered: the Subscription is alive until the
    firing that finds the fourth one missed, and gone after it. An
    acknowledgment in between starts the count again. *)
Example four_in_a_row_then_dead :
  (λ h, (size (subscriptions h), dead h !! 0%nat))
    (run (config := every_second) (Subscribe "o1" "p1" :: replicate 4 Tick) empty_hub)
  = (1%nat, None)
  ∧ (λ h, (size (subscriptions h), dead h !! 0%nat))
      (run (config := every_second) (Subscribe "o1" "p1" :: replicate 5 Tick) empty_hub)
    = (0%nat, Some [Missed; Missed; Missed; Missed])
  ∧ (λ h, (size (subscriptions h), dead h !! 0%nat))
      (run (config := every_second)
         (Subscribe "o1" "p1" :: replicate 4 Tick ++ [Ack 0] ++ replicate 4 Tick)
         empty_hub)
    = (1%nat, None).
Proof. vm_compute. done. Qed.

Example keepalives_every_interval :
  keepalives <$> subscriptions
    (run (config := every_second) (Subscribe "o1" "p1" :: [Tick; Tick; Traffic 0 7; Tick; Tick])
       empty_hub) !! 0%nat
  = Some [0; 1000; 3000].
Proof. vm_compute. done. Qed.

End HubHeartbeatFacts.

(** ** The score and the loop: further properties *)

Module LoopLogFacts.
Import QualityGate DevLoop LoopLog QualityGateFacts DevLoopFacts.

(** *** Scores *)

Lemma penalty_at_least_2 issue : 2 ≤ penalty issue.
Proof. unfold penalty, deduct. repeat case_match; lia. Qed.

Lemma total_penalty_app issues more :
  total_penalty (issues ++ more) = total_penalty issues + total_penalty more.
Proof.
  unfold total_penalty. induction issues as [|i issues IH]; simpl; lia.
Qed.

Lemma total_penalty_nonneg issues : 0 ≤ total_penalty issues.
Proof.
  unfold total_penalty. induction issues as [|i issues IH]; simpl; [lia|].
  pose proof (penalty_at_least_2 i). lia.
Qed.

Lemma score_by_total issues (metrics : Metrics) :
  calculate_quality_score issues metrics
  = clamp (100 - total_penalty issues + rubric_bonus metrics).
Proof. apply calculate_quality_score_eq. Qed.

(** X24. More findings never raise the score: the score of a list of
    findings with further findings added is at most the score without
    them, whatever their severities and whatever the metrics. *)
Theorem more_findings_never_raise_the_score
    (issues more : list Issue) (metrics : Metrics) :
  calculate_quality_score (issues ++ more) metrics
  ≤ calculate_quality_score issues metrics.
Proof.
  rewrite !score_by_total, total_penalty_app.
  pose proof (total_penalty_nonneg more). unfold clamp. lia.
Qed.

(** X25. The score is 100 exactly when the bonus earned by the metrics
    covers the whole penalty of the findings: a version with findings
    scores 100 as long as they cost no more than the bonus. *)
Theorem bonus_masks_findings (issues : list Issue) (metrics : Metrics) :
  calculate_quality_score issues metrics = 100
  ↔ total_penalty issues ≤ rubric_bonus metrics.
Proof.
  rewrite score_by_total. unfold clamp.
  pose proof (total_penalty_nonneg issues). lia.
Qed.

(** X26. A finding whose severity is none of [critical], [high] and
    [medium], whatever the text, is charged like a [low] one. *)
Theorem unknown_severity_counts_as_low
    (issue : Issue) (issues : list Issue) (metrics : Metrics) :
  severity_of issue ∉ ["critical"; "high"; "medium"] →
  calculate_quality_score (issue :: issues) metrics
  = calculate_quality_score (finding "low" :: issues) metrics.
Proof.
  intros Hsev. rewrite !score_by_total. unfold total_penalty. simpl.
  rewrite (penalty_unknown issue).
  - done.
  - intros Heq. apply Hsev. rewrite Heq. set_solver.
  - intros Heq. apply Hsev. rewrite Heq. set_solver.
  - intros Heq. apply Hsev. rewrite Heq. set_solver.
Qed.

(** X27. Only [docstring_coverage] and [test_coverage] count: setting or
    removing any other metric leaves the score as it is. *)
Theorem other_metrics_do_not_count
    (issues : list Issue) (metrics : Metrics) (name : string) (value : Q) :
  name ≠ "docstring_coverage" → name ≠ "test_coverage" →
  calculate_quality_score issues (<[name := value]> metrics)
  = calculate_quality_score issues metrics
  ∧ calculate_quality_score issues (delete name metrics)
    = calculate_quality_score issues metrics.
Proof.
  intros Hd Ht. rewrite !score_by_total. unfold rubric_bonus, metric_reaches.
  by rewrite !lookup_insert_ne, !lookup_delete_ne.
Qed.

Lemma unknown_severity_counts_as_low_witness :
  calculate_quality_score [finding "Critical"] ∅
  = calculate_quality_score [finding "low"] ∅.
Proof.
  apply (unknown_severity_counts_as_low (finding "Critical") [] ∅).
  intros Hin. apply list_elem_of_In in Hin. vm_compute in Hin.
  destruct Hin as [H|[H|[H|[]]]]; discriminate H.
Defined.

Lemma other_metrics_do_not_count_witness :
  calculate_quality_score sample_issues (<["complexity" := 3 # 1]> sample_metrics)
  = calculate_quality_score sample_issues sample_metrics.
Proof.
  apply (other_metrics_do_not_count sample_issues sample_metrics "complexity" (3 # 1));
    discriminate.
Defined.

(** *** Runs of the loop *)

Section Runs.
Context {World Plan Task : Type} `{!Workers World Plan Task}.
Variable threshold : Z.

Lemma while_loop_invariant_cond
    (P : LoopState (World := World) (Plan := Plan) → Prop) max :
  (∀ s, loop_cond max s = true → P s → P (loop_body threshold s)) →
  ∀ fuel s s', P s → while_loop threshold fuel max s = Some s' → P s'.
Proof.
  intros Hstep. induction fuel as [|fuel IH]; intros s s' Hs; simpl; [done|].
  destruct (loop_cond max s) eqn:Hc.
  - apply IH. by apply Hstep.
  - by intros [= <-].
Qed.

Lemma merged_snoc (h : list Evaluation) e : merged (h ++ [e]) = new_files e ∪ merged h.
Proof. unfold merged. by rewrite foldl_app. Qed.

Lemma merged_lookup (h : list Evaluation) path : merged h !! path = latest h path.
Proof.
  induction h as [|e h IH] using rev_ind; [done|].
  rewrite merged_snoc, lookup_union. unfold latest in *. rewrite omap_app. simpl.
  destruct (new_files e !! path) as [body|] eqn:He; simpl.
  - rewrite last_snoc. by destruct (merged h !! path).
  - rewrite app_nil_r, <- IH. by destruct (merged h !! path).
Qed.

(** X29. The files that the loop returns hold, for every path, the body
    that the last iteration to generate that path wrote; so a file
    generated by any iteration, rejected or not, is still there at the end
    unless a later iteration wrote it again. *)
Theorem output_holds_latest_bodies (max_iterations : nat) (p : Plan) (w : World)
    (s' : LoopState (World := World) (Plan := Plan)) (path : string) :
  run_loop threshold max_iterations p w = Some s' →
  current_files s' !! path = latest (history s') path
  ∧ ∀ e, e ∈ history s' → is_Some (new_files e !! path) →
         is_Some (current_files s' !! path).
Proof.
  intros Hrun.
  destruct (run_loop_coherent threshold max_iterations p w s' Hrun) as (_ & Hmerged & _).
  assert (current_files s' !! path = latest (history s') path) as Hlatest.
  { by rewrite Hmerged, merged_lookup. }
  split; [done|]. intros e He [body Hbody]. rewrite Hlatest. unfold latest.
  assert (body ∈ omap (λ e, new_files e !! path) (history s')) as Hin.
  { apply list_elem_of_omap. by exists e. }
  destruct (omap _ (history s')) as [|b l] using rev_ind.
  - by apply elem_of_nil in Hin.
  - rewrite last_snoc. by eexists.
Qed.

(** X28. For a plan that starts open, that [mark_task_complete] completes
    and [add_fixes_to_plan] leaves open: if the loop ends with the plan
    complete, the last version evaluated passed the gate, every version
    before it failed, and the files returned are that version's; if it ends
    with the plan open, every version failed and all [max_iterations]
    iterations were used. *)
Theorem stops_at_first_pass (max_iterations : nat) (p : Plan) (w : World)
    (s' : LoopState (World := World) (Plan := Plan)) :
  (∀ p, is_complete (mark_task_complete p) = true) →
  (∀ issues p, is_complete (add_fixes_to_plan issues p) = is_complete p) →
  is_complete p = false →
  run_loop threshold max_iterations p w = Some s' →
  if is_complete (plan s')
  then ∃ h e, history s' = h ++ [e]
              ∧ gate threshold e = true
              ∧ Forall (λ e, gate threshold e = false) h
              ∧ current_files s' = version_files e
  else Forall (λ e, gate threshold e = false) (history s')
       ∧ iteration s' = max_iterations.
Proof.
  intros Hmark Hadd Hopen Hrun.
  pose (J := λ s : LoopState (World := World) (Plan := Plan),
          if is_complete (plan s)
          then ∃ h e, history s = h ++ [e]
                      ∧ gate threshold e = true
                      ∧ Forall (λ e, gate threshold e = false) h
          else Forall (λ e, gate threshold e = false) (history s)).
  assert (J s') as HJ.
  { apply (while_loop_invariant_cond J max_iterations) with
      (fuel := S max_iterations) (s := initial p w); [| |exact Hrun].
    - intros s Hcond Hs. unfold J in *.
      apply andb_true_iff in Hcond as [_ Hc%negb_true_iff]. rewrite Hc in Hs.
      rewrite loop_body_plan, loop_body_history.
      destruct (gate threshold (evaluate s).1) eqn:Hgate.
      + rewrite Hmark. by exists (history s), (evaluate s).1.
      + rewrite Hadd, Hc. apply Forall_app. split; [done|].
        by apply Forall_singleton.
    - unfold J. simpl. rewrite Hopen. apply Forall_nil_2. }
  unfold J in HJ.
  destruct (run_loop_coherent threshold max_iterations p w s' Hrun) as (_ & _ & Hlast).
  destruct (is_complete (plan s')) eqn:Hdone.
  - destruct HJ as (h & e & Hh & Hgate & Hfail). exists h, e.
    split; [done|]. split; [done|]. split; [done|].
    by rewrite Hlast, Hh, last_snoc.
  - split; [done|].
    destruct (run_loop_total threshold max_iterations p w) as (s'' & Hrun' & Hexit & Hle & _).
    rewrite Hrun in Hrun'. injection Hrun' as <-.
    apply exit_incomplete in Hexit; [lia|done].
Qed.

(** X30. The loop returns at once, with no files and without calling any
    worker, exactly when [max_iterations] is 0 or the plan is complete
    already. *)
Theorem no_work_without_budget (max_iterations : nat) (p : Plan) (w : World) :
  run_loop threshold max_iterations p w = Some (initial p w)
  ↔ max_iterations = 0%nat ∨ is_complete p = true.
Proof.
  unfold run_loop. cbn [while_loop].
  destruct (loop_cond max_iterations (initial p w)) eqn:Hcond.
  - apply andb_true_iff in Hcond as [Hlt%Nat.ltb_lt Hc%negb_true_iff].
    simpl in Hlt, Hc. split.
    + intros Hrun.
      destruct (while_loop_total threshold max_iterations max_iterations
                  (loop_body threshold (initial p w))) as (s' & Hrun' & Hge & _).
      { rewrite loop_body_iteration. simpl. lia. }
      rewrite Hrun in Hrun'. injection Hrun' as <-.
      rewrite loop_body_iteration in Hge. simpl in Hge. lia.
    + intros [->|Hdone]; [lia|congruence].
  - split; [|done]. intros _.
    apply andb_false_iff in Hcond as [Hlt%Nat.ltb_ge|Hc%negb_false_iff].
    + left. simpl in Hlt. lia.
    + by right.
Qed.

End Runs.

Lemma output_holds_latest_bodies_witness :
  current_files exhausted_state !! "app.py" = latest (history exhausted_state) "app.py".
Proof.
  exact (proj1 (output_holds_latest_bodies default_threshold 2 sample_plan 0%nat
                  exhausted_state "app.py" exhausted_run)).
Defined.

Lemma stops_at_first_pass_witness :
  Forall (λ e, gate default_threshold e = false) (history exhausted_state)
  ∧ iteration exhausted_state = 2%nat.
Proof.
  assert (Hmark : ∀ p : SimplePlan, is_complete (mark_task_complete p) = true)
    by (intros p; reflexivity).
  assert (Hadd : ∀ issues (p : SimplePlan),
             is_complete (add_fixes_to_plan issues p) = is_complete p)
    by (intros issues p; reflexivity).
  exact (stops_at_first_pass default_threshold 2 sample_plan 0%nat exhausted_state
           Hmark Hadd eq_refl exhausted_run).
Defined.

End LoopLogFacts.

(** ** The WebSocket client: history, sessions and sockets *)

Module ClientSessionFacts.
Import WebSocketClient WebSocketClientFacts ClientSession.

(** *** The message history *)

Lemma recent_all {A} n (l : list A) : (length l ≤ n)%nat → recent n l = l.
Proof. intros Hle. unfold recent. by replace (length l - n)%nat with 0%nat by lia. Qed.

Lemma recent_length {A} n (l : list A) : length (recent n l) = Nat.min n (length l).
Proof. unfold recent. rewrite length_drop. lia. Qed.

Lemma recent_recent {A} k n (l : list A) :
  (k ≤ n)%nat → recent k (recent n l) = recent k l.
Proof.
  intros Hkn. unfold recent. rewrite length_drop, drop_drop. f_equal. lia.
Qed.

Lemma recent_snoc {A} k (l : list A) x : recent (S k) (l ++ [x]) = recent k l ++ [x].
Proof.
  unfold recent. rewrite length_app. simpl.
  replace (length l + 1 - S k)%nat with (length l - k)%nat by lia.
  rewrite drop_app_le by lia. done.
Qed.

Lemma onmessage_history r m c :
  messageHistory (onmessage r (Some m) c) = recent 99 (messageHistory c) ++ [m].
Proof.
  unfold onmessage, handleMessage. repeat case_match; done.
Qed.

Lemma onmessage_lastMessage r m c : lastMessage (onmessage r (Some m) c) = Some m.
Proof.
  unfold onmessage, handleMessage. repeat case_match; done.
Qed.

Lemma onmessage_sockets r data c : sockets (onmessage r data c) = sockets c.
Proof.
  unfold onmessage, handleMessage. repeat case_match; done.
Qed.

Lemma step_message_open c id sock data :
  sockets c !! id = Some sock → readyState sock = OPEN →
  step c (SocketMessage id data) = onmessage (handlers sock) data c.
Proof. intros Hsock Hopen. simpl. by rewrite Hsock, bool_decide_eq_true_2. Qed.

Lemma step_message_history c id sock data h :
  sockets c !! id = Some sock → readyState sock = OPEN →
  messageHistory c = recent 100 h →
  messageHistory (step c (SocketMessage id data))
  = recent 100 (h ++ from_option (λ m, [m]) [] data)
  ∧ sockets (step c (SocketMessage id data)) = sockets c.
Proof.
  intros Hsock Hopen Hh. rewrite (step_message_open c id sock) by done.
  split; [|apply onmessage_sockets].
  destruct data as [m|]; cbn [from_option].
  - rewrite onmessage_history, Hh, recent_recent by lia. by rewrite recent_snoc.
  - by rewrite app_nil_r.
Qed.

Lemma run_messages_history datas : ∀ c id sock h,
  sockets c !! id = Some sock → readyState sock = OPEN →
  messageHistory c = recent 100 h →
  messageHistory (run (SocketMessage id <$> datas) c) = recent 100 (h ++ parsed datas).
Proof.
  induction datas as [|data datas IH]; intros c id sock h Hsock Hopen Hh.
  - simpl. by rewrite app_nil_r.
  - destruct (step_message_history c id sock data h Hsock Hopen Hh) as [Hh' Hs'].
    change (run (SocketMessage id <$> data :: datas) c)
      with (run (SocketMessage id <$> datas) (step c (SocketMessage id data))).
    rewrite (IH _ id sock (h ++ from_option (λ m, [m]) [] data)); [| by rewrite Hs' | done | done].
    rewrite <- app_assoc. by destruct data.
Qed.

(** X1. While a socket is open, after any series of frames on it the
    message history is the last 100 of the messages it held before followed
    by the messages that arrived, in arrival order; a frame that does not
    parse is skipped and leaves no trace. *)
Theorem history_keeps_latest (id : nat) (sock : Socket)
    (datas : list (option Message)) (c : Client) :
  sockets c !! id = Some sock → readyState sock = OPEN →
  (length (messageHistory c) ≤ 100)%nat →
  messageHistory (run (SocketMessage id <$> datas) c)
  = recent 100 (messageHistory c ++ parsed datas).
Proof.
  intros Hsock Hopen Hlen.
  apply (run_messages_history datas c id sock); [done..|].
  by rewrite recent_all.
Qed.

Lemma history_keeps_latest_witness :
  messageHistory
    (run (SocketMessage 0 <$> [Some ping; None; Some {[ "type" := "pong" ]}])
       connected_client)
  = recent 100 (messageHistory connected_client
                ++ parsed [Some ping; None; Some {[ "type" := "pong" ]}]).
Proof.
  apply (history_keeps_latest 0
           {| readyState := OPEN;
              handlers := render true (Some "u1") initial_client;
              outbox := [] |}); [reflexivity|reflexivity|simpl; lia].
Defined.

(** Nothing but an arriving message touches the history. *)
Lemma connect_history r c :
  messageHistory (connect r c) = messageHistory c
  ∧ lastMessage (connect r c) = lastMessage c.
Proof. unfold connect. repeat case_match; done. Qed.

Lemma stopHeartbeat_history c :
  messageHistory (stopHeartbeat c) = messageHistory c
  ∧ lastMessage (stopHeartbeat c) = lastMessage c.
Proof. unfold stopHeartbeat. repeat case_match; done. Qed.

Lemma clearReconnectTimeout_history c :
  messageHistory (clearReconnectTimeout c) = messageHistory c
  ∧ lastMessage (clearReconnectTimeout c) = lastMessage c.
Proof. unfold clearReconnectTimeout. repeat case_match; done. Qed.

Lemma disconnect_history c :
  messageHistory (disconnect c) = messageHistory c
  ∧ lastMessage (disconnect c) = lastMessage c.
Proof.
  unfold disconnect. cbn [set_connectionStatus set_isConnected messageHistory lastMessage].
  destruct (clearReconnectTimeout_history
              (stopHeartbeat
                 match websocketRef c with
                 | Some id =>
                     set_websocketRef None
                       (set_sockets (alter close_socket id (sockets c)) c)
                 | None => c
                 end)) as [-> ->].
  destruct (stopHeartbeat_history
              match websocketRef c with
              | Some id =>
                  set_websocketRef None
                    (set_sockets (alter close_socket id (sockets c)) c)
              | None => c
              end) as [-> ->].
  by destruct (websocketRef c).
Qed.

Lemma sendMessage_history m c :
  messageHistory (sendMessage m c).2 = messageHistory c
  ∧ lastMessage (sendMessage m c).2 = lastMessage c.
Proof. unfold sendMessage. repeat case_match; done. Qed.

Lemma scheduleReconnect_history r c :
  messageHistory (scheduleReconnect r c) = messageHistory c
  ∧ lastMessage (scheduleReconnect r c) = lastMessage c.
Proof. unfold scheduleReconnect. repeat case_match; done. Qed.

Lemma onclose_history r code c :
  messageHistory (onclose r code c) = messageHistory c
  ∧ lastMessage (onclose r code c) = lastMessage c.
Proof.
  unfold onclose. case_match.
  - destruct (scheduleReconnect_history r
                (stopHeartbeat (set_connectionStatus Disconnected (set_isConnected false c))))
      as [-> ->].
    by destruct (stopHeartbeat_history
                   (set_connectionStatus Disconnected (set_isConnected false c)))
      as [-> ->].
  - by destruct (stopHeartbeat_history
                   (set_connectionStatus Disconnected (set_isConnected false c)))
      as [-> ->].
Qed.

Lemma step_keeps_history c i :
  is_message i = false →
  messageHistory (step c i) = messageHistory c
  ∧ lastMessage (step c i) = lastMessage c.
Proof.
  intros Hi.
  destruct i as [a u| |a u| |m|id|id data|id|id code|id|id]; try done;
    cbn [step].
  - case_match; [apply connect_history | apply disconnect_history].
  - apply disconnect_history.
  - apply connect_history.
  - apply disconnect_history.
  - apply sendMessage_history.
  - destruct (sockets c !! id) as [sock|]; [|done]. case_bool_decide; done.
  - destruct (sockets c !! id) as [sock|]; [|done]. case_bool_decide; done.
  - destruct (sockets c !! id) as [sock|]; [|done]. case_bool_decide; [done|].
    by destruct (onclose_history (handlers sock) code
                   (set_sockets (alter (set_readyState CLOSED) id (sockets c)) c))
      as [-> ->].
  - destruct (timeouts c !! id) as [t|]; [|done]. destruct (pending t); [|done].
    by destruct (connect_history (callback t)
                   (set_timeouts (alter clear_timeout id (timeouts c)) c))
      as [-> ->].
  - destruct (intervals c !! id) as [[]|]; try done.
    unfold heartbeat_tick. case_match; [|done]. apply sendMessage_history.
Qed.

Lemma step_history_ok c i : history_ok c → history_ok (step c i).
Proof.
  intros [Hlen Hlast]. destruct (is_message i) eqn:Hi.
  - destruct i as [| | | | | |id data| | | |]; try done. cbn [step].
    destruct (sockets c !! id) as [sock|]; [|done].
    case_bool_decide; [|done].
    destruct data as [m|]; [|done]. split.
    + rewrite onmessage_history, length_app, recent_length. cbn [length]. lia.
    + by rewrite onmessage_history, onmessage_lastMessage, last_snoc.
  - destruct (step_keeps_history c i Hi) as [Hh Hl].
    unfold history_ok. by rewrite Hh, Hl.
Qed.

(** X2. Whatever the browser and the pages call, in whatever order, the
    message history never holds more than 100 messages, and its last entry
    is the last message received: connecting, disconnecting, reconnecting
    and sending leave both untouched. *)
Theorem history_bounded (inputs : list Input) :
  (length (messageHistory (run inputs initial_client)) ≤ 100)%nat
  ∧ last (messageHistory (run inputs initial_client))
    = lastMessage (run inputs initial_client).
Proof.
  assert (∀ c, history_ok c → history_ok (run inputs c)) as Hrun.
  { induction inputs as [|i inputs IH]; intros c Hc; [done|].
    apply IH. by apply step_history_ok. }
  apply Hrun. split; [simpl; lia|done].
Qed.

(** *** Without a signed-in user *)

Lemma idle_disconnect c : idle c → idle (disconnect c).
Proof.
  intros (Hs & Ht & Hi & Hw & Hr & Hh & Hc).
  unfold disconnect. rewrite Hw.
  unfold stopHeartbeat. rewrite Hh.
  unfold clearReconnectTimeout. rewrite Hr.
  done.
Qed.

Lemma idle_step c i : signed_in i = false → idle c → idle (step c i).
Proof.
  intros Hi Hc. pose proof Hc as (Hs & Ht & Hv & Hw & Hr & Hh & Hconn).
  destruct i as [a u| |a u| |m|id|id data|id|id code|id|id]; cbn [step].
  - simpl in Hi. rewrite Hi. by apply idle_disconnect.
  - by apply idle_disconnect.
  - simpl in Hi. unfold connect. cbn [render seen_isAuthenticated seen_userId].
    destruct a; simpl in *; [|done]. by rewrite Hi.
  - by apply idle_disconnect.
  - unfold sendMessage. by rewrite Hw.
  - by rewrite Hs.
  - by rewrite Hs.
  - by rewrite Hs.
  - by rewrite Hs.
  - by rewrite Ht.
  - by rewrite Hv.
Qed.

(** X3. As long as no render has a signed-in user (authenticated, with a
    user id), the client never creates a socket, a reconnect timer or a
    heartbeat interval, whatever is called, and every [sendMessage] returns
    [false]. *)
Theorem unauthenticated_never_connects (inputs : list Input) :
  forallb (λ i, negb (signed_in i)) inputs = true →
  idle (run inputs initial_client)
  ∧ ∀ message, (sendMessage message (run inputs initial_client)).1 = false.
Proof.
  intros Hin.
  assert (∀ c, idle c → idle (run inputs c)) as Hrun.
  { induction inputs as [|i inputs IH]; intros c Hc; [done|].
    simpl in Hin. apply andb_true_iff in Hin as [Hi Hin].
    apply (IH Hin). apply idle_step; [|done]. by apply negb_true_iff. }
  assert (idle (run inputs initial_client)) as Hidle.
  { apply Hrun. by repeat split. }
  split; [done|]. intros message.
  destruct Hidle as (_ & _ & _ & Hw & _). unfold sendMessage. by rewrite Hw.
Qed.

Lemma unauthenticated_never_connects_witness :
  idle (run [EffectRun false None; ContextConnect true None; ContextSend ping;
             TimeoutFire 0; EffectCleanup] initial_client).
Proof.
  exact (proj1 (unauthenticated_never_connects
                  [EffectRun false None; ContextConnect true None; ContextSend ping;
                   TimeoutFire 0; EffectCleanup] eq_refl)).
Defined.

(** *** Sockets *)

Lemma lookup_alter_fixed {A} (f : A → A) (l : list A) (i j : nat) (x : A) :
  l !! j = Some x → (i = j → f x = x) → alter f i l !! j = Some x.
Proof.
  intros Hx Hf. destruct (decide (i = j)) as [->|Hne].
  - rewrite list_lookup_alter_eq, Hx. simpl. f_equal. by apply Hf.
  - by rewrite list_lookup_alter_ne.
Qed.

Lemma clearReconnectTimeout_sockets c : sockets (clearReconnectTimeout c) = sockets c.
Proof. unfold clearReconnectTimeout. by destruct (reconnectTimeoutRef c). Qed.

Lemma disconnect_sockets c :
  sockets (disconnect c)
  = match websocketRef c with
    | Some id => alter close_socket id (sockets c)
    | None => sockets c
    end.
Proof.
  unfold disconnect. cbn [set_connectionStatus set_isConnected sockets].
  rewrite clearReconnectTimeout_sockets, stopHeartbeat_sockets.
  by destruct (websocketRef c).
Qed.

Lemma close_socket_closed sock : readyState sock = CLOSED → close_socket sock = sock.
Proof. destruct sock as [st h o]. simpl. by intros ->. Qed.

Lemma connect_sockets_closed r c id sock :
  sockets c !! id = Some sock → sockets (connect r c) !! id = Some sock.
Proof.
  intros Hsock. unfold connect. repeat case_match; try done.
  simpl. by apply lookup_app_l_Some.
Qed.

Lemma disconnect_sockets_closed c id sock :
  sockets c !! id = Some sock → readyState sock = CLOSED →
  sockets (disconnect c) !! id = Some sock.
Proof.
  intros Hsock Hclosed. rewrite disconnect_sockets.
  destruct (websocketRef c) as [ref|]; [|done].
  apply lookup_alter_fixed; [done|]. intros _. by apply close_socket_closed.
Qed.

Lemma sendMessage_sockets_closed m c id sock :
  sockets c !! id = Some sock → readyState sock ≠ OPEN →
  sockets (sendMessage m c).2 !! id = Some sock.
Proof.
  intros Hsock Hclosed. unfold sendMessage.
  destruct (websocketRef c) as [ref|] eqn:Href; [|done].
  destruct (current_socket_open c) eqn:Hopen; [|done].
  cbn [snd set_sockets sockets].
  apply lookup_alter_fixed; [done|]. intros ->.
  unfold current_socket_open in Hopen. rewrite Href, Hsock in Hopen.
  by apply bool_decide_eq_true in Hopen.
Qed.

Lemma onopen_sockets r c : sockets (onopen r c) = sockets c.
Proof. done. Qed.

Lemma step_sockets_closed c i id sock :
  sockets c !! id = Some sock → readyState sock = CLOSED →
  sockets (step c i) !! id = Some sock.
Proof.
  intros Hsock Hclosed.
  destruct i as [a u| |a u| |m|id'|id' data|id'|id' code|id'|id']; cbn [step].
  - case_match; [by apply connect_sockets_closed | by apply disconnect_sockets_closed].
  - by apply disconnect_sockets_closed.
  - by apply connect_sockets_closed.
  - by apply disconnect_sockets_closed.
  - apply sendMessage_sockets_closed; [done|]. by rewrite Hclosed.
  - destruct (sockets c !! id') as [sock'|] eqn:Hsock'; [|done].
    case_bool_decide as Hst; [|done]. rewrite onopen_sockets. cbn [set_sockets sockets].
    apply lookup_alter_fixed; [done|]. intros ->. congruence.
  - destruct (sockets c !! id') as [sock'|] eqn:Hsock'; [|done].
    case_bool_decide; [|done]. by rewrite onmessage_sockets.
  - destruct (sockets c !! id') as [sock'|] eqn:Hsock'; [|done].
    by case_bool_decide.
  - destruct (sockets c !! id') as [sock'|] eqn:Hsock'; [|done].
    case_bool_decide as Hst; [done|]. rewrite onclose_sockets. cbn [set_sockets sockets].
    apply lookup_alter_fixed; [done|]. intros ->. congruence.
  - destruct (timeouts c !! id') as [t|]; [|done]. destruct (pending t); [|done].
    by apply connect_sockets_closed.
  - destruct (intervals c !! id') as [[]|]; try done.
    unfold heartbeat_tick. case_match; [|done].
    apply sendMessage_sockets_closed; [done|]. by rewrite Hclosed.
Qed.

(** X4. A socket that has closed is never used again: whatever happens
    afterwards, it stays closed, keeps its handlers, and nothing more is
    sent through it. *)
Theorem closed_socket_is_final (inputs : list Input) (c : Client)
    (id : nat) (sock : Socket) :
  sockets c !! id = Some sock → readyState sock = CLOSED →
  sockets (run inputs c) !! id = Some sock.
Proof.
  revert c. induction inputs as [|i inputs IH]; intros c Hsock Hclosed; [done|].
  apply IH; [|done]. by apply step_sockets_closed.
Qed.

Lemma closed_socket_is_final_witness :
  sockets (run [TimeoutFire 0; SocketOpen 1; ContextSend ping; ContextDisconnect]
             (run [SocketClose 0 1006] connected_client)) !! 0%nat
  = Some {| readyState := CLOSED;
            handlers := render true (Some "u1") initial_client;
            outbox := [] |}.
Proof.
  apply (closed_socket_is_final
           [TimeoutFire 0; SocketOpen 1; ContextSend ping; ContextDisconnect]
           (run [SocketClose 0 1006] connected_client) 0); reflexivity.
Defined.

(** *** Disconnecting *)

Lemma disconnect_fields c :
  isConnected (disconnect c) = false
  ∧ connectionStatus (disconnect c) = Disconnected
  ∧ websocketRef (disconnect c) = None
  ∧ heartbeatIntervalRef (disconnect c) = None
  ∧ reconnectTimeoutRef (disconnect c) = None
  ∧ intervals (disconnect c)
    = match heartbeatIntervalRef c with
      | Some hb => <[hb := false]> (intervals c)
      | None => intervals c
      end
  ∧ timeouts (disconnect c)
    = match reconnectTimeoutRef c with
      | Some t => alter clear_timeout t (timeouts c)
      | None => timeouts c
      end.
Proof.
  destruct c as [? ? ? ? ? [ws|] [rt|] [hb|] ? ? ? ?]; repeat split.
Qed.

Lemma disconnect_idempotent c : disconnect (disconnect c) = disconnect c.
Proof.
  destruct c as [? ? ? ? ? [ws|] [rt|] [hb|] ? ? ? ?]; reflexivity.
Qed.

(** X5. After [disconnect], from any state, the client is marked
    disconnected and has no current socket, so every send fails; the
    heartbeat interval and the reconnect timer that the refs pointed to are
    cleared, so their firing changes nothing; and the cleanup on unmount,
    which disconnects a second time and clears the reconnect timer again,
    changes nothing more. *)
Theorem disconnect_releases (c : Client) :
  isConnected (disconnect c) = false
  ∧ connectionStatus (disconnect c) = Disconnected
  ∧ websocketRef (disconnect c) = None
  ∧ (∀ message, (sendMessage message (disconnect c)).1 = false)
  ∧ (∀ hb, heartbeatIntervalRef c = Some hb →
       step (disconnect c) (IntervalFire hb) = disconnect c)
  ∧ (∀ t, reconnectTimeoutRef c = Some t →
       step (disconnect c) (TimeoutFire t) = disconnect c)
  ∧ clearReconnectTimeout (disconnect (disconnect c)) = disconnect c.
Proof.
  destruct (disconnect_fields c) as (Hconn & Hstatus & Hws & Hhb & Hrt & Hint & Htm).
  split; [done|]. split; [done|]. split; [done|]. split; [|split; [|split]].
  - intros message. unfold sendMessage. by rewrite Hws.
  - intros hb Hb. cbn [step]. rewrite Hint, Hb.
    destruct (decide (hb < length (intervals c))%nat) as [Hlt|Hge].
    + by rewrite list_lookup_insert_eq.
    + rewrite list_insert_ge by lia. by rewrite lookup_ge_None_2 by lia.
  - intros t Ht. cbn [step]. rewrite Htm, Ht, list_lookup_alter_eq.
    by destruct (timeouts c !! t).
  - rewrite disconnect_idempotent. unfold clearReconnectTimeout. by rewrite Hrt.
Qed.

(** *** Opening *)

(** X6. When the current socket opens, the connection is live: the client
    is marked connected, the socket is open, a new heartbeat interval is
    armed and the ref points to it; the attempt counter is back to 0 and no
    timer is touched. *)
Theorem open_makes_live (c : Client) (id : nat) (sock : Socket) :
  websocketRef c = Some id →
  sockets c !! id = Some sock →
  readyState sock = CONNECTING →
  live_connection id (length (intervals c)) (step c (SocketOpen id))
  ∧ reconnectAttempts (step c (SocketOpen id)) = 0%nat
  ∧ timeouts (step c (SocketOpen id)) = timeouts c.
Proof.
  intros Href Hsock Hst. cbn [step]. rewrite Hsock, bool_decide_eq_true_2 by done.
  split; [|done]. unfold live_connection, onopen. repeat split; try done.
  - exists (set_readyState OPEN sock). split; [|done]. simpl.
    by rewrite list_lookup_alter_eq, Hsock.
  - simpl. by rewrite lookup_app_r, Nat.sub_diag.
Qed.

Lemma open_makes_live_witness :
  live_connection 0 0 (step (step initial_client (EffectRun true (Some "u1"))) (SocketOpen 0)).
Proof.
  exact (proj1 (open_makes_live (step initial_client (EffectRun true (Some "u1"))) 0
                  {| readyState := CONNECTING;
                     handlers := render true (Some "u1") initial_client;
                     outbox := [] |} eq_refl eq_refl eq_refl)).
Defined.

(** *** Reconnecting *)

Lemma reconnects_never_back_off_witness :
  Forall (λ t, delay t = RECONNECT_INTERVAL)
    (timeouts (run (flat_map (λ i, [SocketClose i 1006; TimeoutFire i]) (seq 0 3))
                 (step initial_client (EffectRun true (Some "u1"))))).
Proof.
  exact (reconnects_never_back_off "u1"
           (flat_map (λ i, [SocketClose i 1006; TimeoutFire i]) (seq 0 3)) eq_refl).
Defined.

Lemma abnormal_close_always_reconnects_witness :
  delay <$> timeouts (step (run [SocketClose 0 1006; TimeoutFire 0]
                              (step initial_client (EffectRun true (Some "u1"))))
                        (SocketClose 1 1011))
  = [5000; 5000].
Proof.
  rewrite (abnormal_close_always_reconnects "u1" [SocketClose 0 1006; TimeoutFire 0]
             1 1011
             {| readyState := CONNECTING;
                handlers := render true (Some "u1") initial_client;
                outbox := [] |} eq_refl eq_refl); [reflexivity|discriminate|lia].
Defined.

End ClientSessionFacts.

(** ** Registered message handlers *)

Module MessageHandlersFacts.
Import WebSocketClient MessageHandlers.

Section Handlers.
Context {Page : Type}.
Implicit Types (table : Handlers Page) (entries : list (string * Handler Page)).

Lemma register_all_snoc entries entry table :
  register_all (entries ++ [entry]) table
  = (<[entry.1 := entry.2]> (register_all entries table).1,
     (register_all entries table).2 ++ [delete entry.1]).
Proof. unfold register_all. by rewrite foldl_app. Qed.

Lemma run_cleanups_snoc (cleanups : list (Handlers Page → Handlers Page)) cleanup table :
  run_cleanups (cleanups ++ [cleanup]) table = cleanup (run_cleanups cleanups table).
Proof. unfold run_cleanups. by rewrite foldl_app. Qed.

Lemma register_all_lookup entries table type :
  (register_all entries table).1 !! type
  = match last_registered entries type with
    | Some handler => Some handler
    | None => table !! type
    end.
Proof.
  induction entries as [|entry entries IH] using rev_ind; [done|].
  rewrite register_all_snoc. cbn [fst]. unfold last_registered in *.
  rewrite filter_app, filter_cons, filter_nil.
  destruct (decide (entry.1 = type)) as [<-|Hne].
  - by rewrite lookup_insert_eq, last_snoc.
  - by rewrite lookup_insert_ne, app_nil_r.
Qed.

Lemma run_cleanups_lookup entries table table' type :
  run_cleanups (register_all entries table).2 table' !! type
  = if bool_decide (type ∈ entries.*1) then None else table' !! type.
Proof.
  induction entries as [|entry entries IH] using rev_ind; [done|].
  rewrite register_all_snoc. cbn [snd]. rewrite run_cleanups_snoc.
  rewrite fmap_app. simpl.
  destruct (decide (entry.1 = type)) as [<-|Hne].
  - rewrite lookup_delete_eq, bool_decide_eq_true_2; [done|].
    rewrite elem_of_app, list_elem_of_singleton. by right.
  - rewrite lookup_delete_ne, IH by done.
    rewrite (bool_decide_ext (type ∈ entries.*1 ++ [entry.1]) (type ∈ entries.*1));
      [done|]. rewrite elem_of_app, list_elem_of_singleton. intuition congruence.
Qed.

(** X9. After an effect has registered its handlers, a message reaches
    the handler registered last for its type, called with the [data] of the
    message or, without one, the message itself; a type the effect did not
    name reaches the handler it had before. After the cleanup of the effect
    a type it named reaches no handler at all, not even one that another
    component had registered for it before or in between; the other types
    are as they were. The built-in [switch] runs in every case. *)
Theorem handlers_follow_registration entries table (message : Message)
    (page : Page) (c : Client) :
  (handleMessage (register_all entries table).1 message page c).1
  = match last_registered entries (type_key message) with
    | Some handler => handler (payload_of message) page
    | None => (handleMessage table message page c).1
    end
  ∧ (handleMessage
       (run_cleanups (register_all entries table).2 (register_all entries table).1)
       message page c).1
    = (if bool_decide (type_key message ∈ entries.*1) then page
       else (handleMessage table message page c).1)
  ∧ ∀ table', (handleMessage table' message page c).2
              = WebSocketClient.handleMessage message c.
Proof.
  split; [|split; [|done]].
  - unfold handleMessage. cbn [fst]. rewrite register_all_lookup.
    by destruct (last_registered entries (type_key message)).
  - unfold handleMessage. cbn [fst]. rewrite run_cleanups_lookup.
    case_bool_decide as Hin; [done|].
    rewrite register_all_lookup.
    destruct (last_registered entries (type_key message)) as [h|] eqn:Hlast; [|done].
    exfalso. apply Hin. unfold last_registered in Hlast.
    apply fmap_Some in Hlast as (entry & Hlast & _).
    apply last_Some_elem_of, list_elem_of_filter in Hlast as [<- Hentry].
    apply list_elem_of_fmap. by exists entry.
Qed.

End Handlers.

End MessageHandlersFacts.

(** ** The project creation form *)

Module ProjectFormFacts.
Import ProjectForm.

Lemma toggle_elem item other items :
  other ∈ toggle item items
  ↔ (other = item ∧ item ∉ items) ∨ (other ≠ item ∧ other ∈ items).
Proof.
  unfold toggle. case_bool_decide as Hin.
  - rewrite list_elem_of_filter.
    destruct (decide (other = item)) as [->|Hne]; intuition congruence.
  - rewrite elem_of_app, list_elem_of_singleton.
    destruct (decide (other = item)) as [->|Hne]; intuition congruence.
Qed.

(** X18. Toggling an item of the form (a feature or a special requirement)
    in a list without repetitions flips whether the item is in the list and
    nothing else: no other item comes or goes, no repetition appears, and
    toggling twice gives the list back up to the order of its items. *)
Theorem toggle_flips_membership (item : string) (items : list string) :
  NoDup items →
  NoDup (toggle item items)
  ∧ (item ∈ toggle item items ↔ item ∉ items)
  ∧ (∀ other, other ≠ item → other ∈ toggle item items ↔ other ∈ items)
  ∧ toggle item (toggle item items) ≡ₚ items.
Proof.
  intros Hnodup.
  assert (NoDup (toggle item items)) as Hnodup'.
  { unfold toggle. case_bool_decide as Hin.
    - by apply NoDup_filter.
    - apply NoDup_app. split; [done|]. split; [|apply NoDup_singleton].
      intros x Hx ->%list_elem_of_singleton. done. }
  split; [done|]. split; [|split].
  - rewrite toggle_elem. intuition congruence.
  - intros other Hne. rewrite toggle_elem. intuition congruence.
  - apply NoDup_Permutation; [|done|].
    + unfold toggle at 1. case_bool_decide.
      * by apply NoDup_filter.
      * apply NoDup_app. split; [done|]. split; [|apply NoDup_singleton].
        intros x Hx ->%list_elem_of_singleton. done.
    + intros x. rewrite !toggle_elem.
      destruct (decide (x = item)) as [->|Hne];
        destruct (decide (item ∈ items)); intuition congruence.
Qed.

Lemma toggle_flips_membership_witness :
  toggle "搜索功能" (toggle "搜索功能" ["用户注册登录"; "搜索功能"; "评论系统"])
  ≡ₚ ["用户注册登录"; "搜索功能"; "评论系统"].
Proof.
  assert (NoDup ["用户注册登录"; "搜索功能"; "评论系统"]) as Hnodup.
  { apply NoDup_ListNoDup. repeat constructor; simpl; intuition discriminate. }
  exact (proj2 (proj2 (proj2 (toggle_flips_membership "搜索功能"
                                ["用户注册登录"; "搜索功能"; "评论系统"] Hnodup)))).
Defined.

End ProjectFormFacts.

(** ** The project store *)

Module ProjectStoreFacts.
Import ProjectStore.

(** *** Real-time updates *)

Lemma reducer_updates_length state action :
  (length (realTimeUpdates state) ≤ 100)%nat →
  (length (realTimeUpdates (projectReducer state action)) ≤ 100)%nat.
Proof.
  intros Hlen. destruct action; try done; simpl.
  - rewrite length_take. lia.
  - lia.
Qed.

Lemma dispatch_all_updates_length actions state :
  (length (realTimeUpdates state) ≤ 100)%nat →
  (length (realTimeUpdates (dispatch_all actions state)) ≤ 100)%nat.
Proof.
  revert state. induction actions as [|a actions IH]; intros state Hlen; [done|].
  apply IH. by apply reducer_updates_length.
Qed.

Lemma burst_updates updates : ∀ state log,
  realTimeUpdates state = take 100 log →
  realTimeUpdates (dispatch_all (ADD_REAL_TIME_UPDATE <$> updates) state)
  = take 100 (reverse updates ++ log).
Proof.
  induction updates as [|u updates IH]; intros state log Hlog; [done|].
  change (dispatch_all (ADD_REAL_TIME_UPDATE <$> u :: updates) state)
    with (dispatch_all (ADD_REAL_TIME_UPDATE <$> updates)
            (projectReducer state (ADD_REAL_TIME_UPDATE u))).
  rewrite (IH _ (u :: log)).
  - by rewrite reverse_cons, <- app_assoc.
  - simpl. rewrite Hlog, take_take. done.
Qed.

(** X13. The list of real-time updates never grows beyond 100 entries,
    whatever actions are dispatched, and after a series of updates it holds
    the newest 100 of them and of the ones before, the newest first. *)
Theorem real_time_updates_window
    (updates : list Object) (actions : list Action) (state : State) :
  (length (realTimeUpdates state) ≤ 100)%nat →
  (length (realTimeUpdates (dispatch_all actions state)) ≤ 100)%nat
  ∧ realTimeUpdates (dispatch_all (ADD_REAL_TIME_UPDATE <$> updates) state)
    = take 100 (reverse updates ++ realTimeUpdates state).
Proof.
  intros Hlen. split; [by apply dispatch_all_updates_length|].
  apply burst_updates. by rewrite take_ge.
Qed.

Lemma real_time_updates_window_witness :
  realTimeUpdates
    (dispatch_all (ADD_REAL_TIME_UPDATE <$> [{[ "type" := "progress" ]};
                                             {[ "type" := "ai_status" ]}])
       initialState)
  = [{[ "type" := "ai_status" ]}; {[ "type" := "progress" ]}].
Proof.
  assert (Hlen : (length (realTimeUpdates initialState) ≤ 100)%nat) by (simpl; lia).
  exact (proj2 (real_time_updates_window
                  [{[ "type" := "progress" ]}; {[ "type" := "ai_status" ]}] []
                  initialState Hlen)).
Defined.

(** *** The project list *)

Lemma filter_all {A} (P : A → Prop) `{∀ x, Decision (P x)} (l : list A) :
  Forall P l → filter P l = l.
Proof.
  induction 1 as [|x l Hx _ IH]; [done|].
  by rewrite filter_cons_True, IH.
Qed.

Lemma Forall_filter_keeps {A} (P : A → Prop) `{∀ x, Decision (P x)} (l : list A) :
  Forall P (filter P l).
Proof.
  apply Forall_forall. by intros x [Hx _]%list_elem_of_filter.
Qed.

(** X14. [removeProject] forgets the project, and the selection as the
    render saw it. No project of the list has the removed id any more
    while all others stay, in their order, and the current project no
    longer carries the id. The selection is tested on
    [state.selectedProjectId] of the render that created the function
    ([seen]), not on the store: it is cleared exactly when that render had
    the removed project selected, and stays what it is in the store
    otherwise. So after a call from an up-to-date render the selection does
    not carry the id; from a stale render it can. The development status,
    the frontend preview and the deployment status loaded for the project
    stay in the store. *)
Theorem removeProject_forgets (seen : State) (projectId : string) (state : State) :
  let after := removeProject seen projectId state in
  projects after
  = filter (λ project, id_of project ≠ Some projectId) (projects state)
  ∧ Forall (λ project, id_of project ≠ Some projectId) (projects after)
  ∧ current_id after ≠ Some projectId
  ∧ selectedProjectId after
    = (if bool_decide (selectedProjectId seen = Some projectId)
       then None else selectedProjectId state)
  ∧ (selectedProjectId seen = selectedProjectId state →
     selectedProjectId after ≠ Some projectId)
  ∧ developmentStatus after = developmentStatus state
  ∧ frontendPreview after = frontendPreview state
  ∧ deploymentStatus after = deploymentStatus state.
Proof.
  cbn zeta. unfold removeProject.
  assert (projects (projectReducer state (REMOVE_PROJECT projectId))
          = filter (λ project, id_of project ≠ Some projectId) (projects state))
    as Hprojects by done.
  assert (current_id (projectReducer state (REMOVE_PROJECT projectId)) ≠ Some projectId)
    as Hcurrent.
  { unfold current_id. simpl. case_bool_decide as Hc; [done|]. exact Hc. }
  case_bool_decide as Hsel.
  - repeat split; try done. simpl. apply Forall_filter_keeps.
  - repeat split; try done.
    + simpl. apply Forall_filter_keeps.
    + intros Hfresh. simpl. congruence.
Qed.

(** From a stale render the selection survives the removal: the store has
    p1 selected, the render saw no selection, and p1 is removed. *)
Example stale_render_keeps_selection :
  let state := projectReducer initialState (SET_SELECTED_PROJECT (Some "p1")) in
  selectedProjectId (removeProject initialState "p1" state) = Some "p1"
  ∧ selectedProjectId (removeProject state "p1" state) = None.
Proof. done. Qed.

(** X15. [UPDATE_PROJECT] replaces in place: the list keeps its length and
    the ids at every position, every entry is either the payload or the
    entry that was there, with another id; and dispatching the same update
    twice is the same as dispatching it once. *)
Theorem update_project_in_place (payload : Project) (state : State) :
  id_of <$> projects (projectReducer state (UPDATE_PROJECT payload))
  = id_of <$> projects state
  ∧ (∀ i project,
       projects (projectReducer state (UPDATE_PROJECT payload)) !! i = Some project →
       project = payload
       ∨ (projects state !! i = Some project ∧ id_of project ≠ id_of payload))
  ∧ projectReducer (projectReducer state (UPDATE_PROJECT payload))
      (UPDATE_PROJECT payload)
    = projectReducer state (UPDATE_PROJECT payload).
Proof.
  split; [|split].
  - simpl. rewrite <- list_fmap_compose. apply list_fmap_ext.
    intros i project _. simpl. by case_bool_decide.
  - intros i project. simpl. rewrite list_lookup_fmap.
    destruct (projects state !! i) as [q|]; [|done]. simpl.
    case_bool_decide; intros [= <-]; [by left|by right].
  - destruct state as [ps ? ? cur ? ? ? ? ? ? ? ? ? ? ? ? ? ?].
    assert (∀ f : Project → Project, (∀ q, f (f q) = f q) → f <$> (f <$> ps) = f <$> ps)
      as Hmap.
    { intros f Hf. rewrite <- list_fmap_compose. apply list_fmap_ext.
      intros i q _. apply Hf. }
    unfold projectReducer, current_id, set_currentProject, set_projects.
    cbn -[fmap]. rewrite Hmap by (intros q; repeat case_bool_decide; done).
    f_equal.
    destruct cur as [c|]; simpl; repeat (case_bool_decide; simpl in * ); done.
Qed.

(** X16. Adding a project whose id is new to the store (no project of the
    list and not the current project) and then removing that id gives back
    the store as it was. *)
Theorem add_then_remove (project : Project) (projectId : string) (state : State) :
  id_of project = Some projectId →
  Forall (λ p, id_of p ≠ Some projectId) (projects state) →
  current_id state ≠ Some projectId →
  projectReducer (projectReducer state (ADD_PROJECT project)) (REMOVE_PROJECT projectId)
  = state.
Proof.
  intros Hid Hfresh Hcur.
  destruct state as [ps ? ? cur ? ? ? ? ? ? ? ? ? ? ? ? ? ?].
  unfold projectReducer, current_id, set_currentProject, set_projects in *.
  cbn -[filter] in *.
  rewrite filter_cons_False by (intros Hne; by apply Hne).
  rewrite filter_all by done.
  by rewrite bool_decide_eq_false_2.
Qed.

Lemma add_then_remove_witness :
  projectReducer (projectReducer initialState (ADD_PROJECT {[ "id" := "p1" ]}))
    (REMOVE_PROJECT "p1")
  = initialState.
Proof.
  apply (add_then_remove {[ "id" := "p1" ]} "p1" initialState).
  - reflexivity.
  - apply Forall_nil_2.
  - discriminate.
Defined.

(** *** Development progress *)

(** X17. Progress updates accumulate: two [UPDATE_DEVELOPMENT_PROGRESS]
    actions in a row are the same as one with the two payloads merged, the
    later one winning on a field they share; a field that neither names
    keeps the value the development status had, starting from an empty
    status when there was none. *)
Theorem progress_updates_merge (first second : Object) (state : State) :
  projectReducer (projectReducer state (UPDATE_DEVELOPMENT_PROGRESS first))
    (UPDATE_DEVELOPMENT_PROGRESS second)
  = projectReducer state (UPDATE_DEVELOPMENT_PROGRESS (second ∪ first))
  ∧ ∀ key,
      (developmentStatus
         (projectReducer (projectReducer state (UPDATE_DEVELOPMENT_PROGRESS first))
            (UPDATE_DEVELOPMENT_PROGRESS second)) ≫= (.!! key))
      = match second !! key, first !! key with
        | Some v, _ => Some v
        | None, Some v => Some v
        | None, None => developmentStatus state ≫= (.!! key)
        end.
Proof.
  split.
  - unfold projectReducer. simpl. by rewrite (assoc_L (∪)).
  - intros key. simpl. rewrite !lookup_union.
    assert (default ∅ (developmentStatus state) !! key
            = developmentStatus state ≫= (.!! key)) as ->.
    { by destruct (developmentStatus state). }
    destruct (second !! key), (first !! key),
      (developmentStatus state ≫= (.!! key)); done.
Qed.

End ProjectStoreFacts.

(** ** The pages on top of the two contexts *)

Module ProjectPagesFacts.
Import WebSocketClient ProjectStore ProjectPages.

(** *** Sending *)

Lemma sendMessage_closed m c :
  current_socket_open c = false →
  sendMessage m c = (false, showNotification NoticeSendFailed c).
Proof.
  intros Hclosed. unfold sendMessage. rewrite Hclosed. by destruct (websocketRef c).
Qed.

Lemma sendMessage_open m c :
  current_socket_open c = true →
  (sendMessage m c).1 = true
  ∧ current_socket_open (sendMessage m c).2 = true
  ∧ sent (sendMessage m c).2 = sent c ++ [m]
  ∧ notifications (sendMessage m c).2 = notifications c.
Proof.
  intros Hopen. unfold sendMessage, sent. rewrite Hopen.
  unfold current_socket_open in *.
  destruct (websocketRef c) as [id|] eqn:Href; [|done].
  destruct (sockets c !! id) as [sock|] eqn:Hsock; [|done].
  cbn [fst snd set_sockets sockets websocketRef notifications].
  rewrite Href, list_lookup_alter_eq, Hsock. by destruct sock.
Qed.

Lemma sent_showNotification n c : sent (showNotification n c) = sent c.
Proof. done. Qed.

Lemma open_showNotification n c :
  current_socket_open (showNotification n c) = current_socket_open c.
Proof. done. Qed.

(** What a send leaves in the outbox, open or not. *)
Lemma sendMessage_sent m c :
  sent (sendMessage m c).2 = sent c ++ (if current_socket_open c then [m] else [])
  ∧ current_socket_open (sendMessage m c).2 = current_socket_open c.
Proof.
  destruct (current_socket_open c) eqn:Hopen.
  - destruct (sendMessage_open m c Hopen) as (_ & Ho & Hs & _). by rewrite Ho, Hs.
  - rewrite sendMessage_closed by done. simpl.
    by rewrite sent_showNotification, open_showNotification, app_nil_r.
Qed.

(** *** Selecting *)

Lemma reducer_selection state action :
  (∀ payload, action ≠ SET_SELECTED_PROJECT payload) →
  selectedProjectId (projectReducer state action) = selectedProjectId state.
Proof. intros Hne. destruct action; try done. by destruct (Hne payload). Qed.

(** *** Loading *)

(** Only the four loading actions raise a loading flag. *)
Lemma flag_kept k action state :
  raises_flag action = false →
  flag k (projectReducer state action) = true → flag k state = true.
Proof. by destruct action, k. Qed.

Lemma backed_dispatch except action p :
  raises_flag action = false →
  backed_except except p → backed_except except (dispatch action p).
Proof.
  intros Hplain Hbacked k Hk Hflag.
  apply (Hbacked k Hk), (flag_kept k action), Hflag. exact Hplain.
Qed.

(** A loader that starts backs the flag it raises. *)
Lemma backed_start a action p :
  (∀ k state, flag k (projectReducer state action) = true →
              Some k = kind_of a ∨ flag k state = true) →
  backed p → backed (await a (dispatch action p)).
Proof.
  intros Hraise Hbacked k _ Hflag. cbn [await dispatch store awaits] in *.
  rewrite fmap_app, elem_of_app.
  destruct (Hraise k _ Hflag) as [->|Hold].
  - right. apply list_elem_of_singleton. done.
  - left. by apply Hbacked.
Qed.

(** One more function that waits takes no backing away. *)
Lemma backed_await a p : backed p → backed (await a p).
Proof.
  intros Hbacked k Hk Hflag. cbn [await store awaits] in *.
  rewrite fmap_app, elem_of_app. left. by apply Hbacked.
Qed.

Lemma backed_loadProject projectId p : backed p → backed (loadProject projectId p).
Proof. apply backed_start. intros []; cbn; auto. Qed.

Lemma backed_start_development projectId parent p :
  backed p → backed (start_development projectId parent p).
Proof. apply backed_start. intros []; cbn; auto. Qed.

Lemma backed_start_preview projectId parent p :
  backed p → backed (start_preview projectId parent p).
Proof. apply backed_start. intros []; cbn; auto. Qed.

Lemma backed_start_deployment projectId p :
  backed p → backed (start_deployment projectId p).
Proof. apply backed_start. intros []; cbn; auto. Qed.

Lemma backed_related_deployment project p :
  backed p → backed (related_deployment project p).
Proof.
  intros Hbacked. unfold related_deployment.
  destruct (includes _ _); [by apply backed_start_deployment|done].
Qed.

Lemma backed_related_preview project p :
  backed p → backed (related_preview project p).
Proof.
  intros Hbacked. unfold related_preview.
  destruct (includes _ _); [by apply backed_start_preview|by apply backed_related_deployment].
Qed.

Lemma backed_loadProjectRelatedData project p :
  backed p → backed (loadProjectRelatedData project p).
Proof.
  intros Hbacked. unfold loadProjectRelatedData.
  destruct (includes _ _);
    [by apply backed_start_development|by apply backed_related_preview].
Qed.

(** The call that completes no longer backs its flag, ... *)
Lemma backed_delete i a p :
  awaits p !! i = Some a →
  backed p →
  backed_except (kind_of a) {| store := store p; awaits := delete i (awaits p) |}.
Proof.
  intros Hi Hbacked k Hk Hflag. cbn [store awaits] in *.
  specialize (Hbacked k ltac:(done) Hflag).
  rewrite <- (take_drop_middle _ _ _ Hi) in Hbacked.
  rewrite delete_take_drop.
  rewrite fmap_app, elem_of_app in *. rewrite fmap_cons, elem_of_cons in Hbacked.
  destruct Hbacked as [?|[Heq|?]]; [by left|by destruct Hk|by right].
Qed.

(** ... and the first thing its loader does is to lower the flag. *)
Lemma backed_finish k0 action p :
  raises_flag action = false →
  (∀ state, flag k0 (projectReducer state action) = false) →
  backed_except (Some k0) p → backed (dispatch action p).
Proof.
  intros Hplain Hlower Hbacked k _ Hflag. cbn [dispatch store awaits] in *.
  destruct (decide (k = k0)) as [->|Hne].
  - by rewrite Hlower in Hflag.
  - apply Hbacked; [congruence|]. by apply (flag_kept k action).
Qed.

Lemma backed_resolve i a outcome p :
  awaits p !! i = Some a →
  backed p →
  backed (resolve a outcome {| store := store p; awaits := delete i (awaits p) |}).
Proof.
  intros Hi Hbacked. pose proof (backed_delete i a p Hi Hbacked) as Hrest.
  destruct a as [projectId|projectId parent|projectId parent|projectId|project|project];
    cbn [resolve kind_of] in *.
  - destruct outcome as [project|message].
    + apply backed_loadProjectRelatedData. by apply (backed_finish OfProject).
    + by apply (backed_finish OfProject).
  - assert (backed
              match outcome with
              | inl status =>
                  dispatch (SET_DEVELOPMENT_STATUS_SUCCESS status)
                    {| store := store p; awaits := delete i (awaits p) |}
              | inr message =>
                  dispatch (SET_DEVELOPMENT_STATUS_ERROR message)
                    {| store := store p; awaits := delete i (awaits p) |}
              end) as Hdone
      by (destruct outcome; by apply (backed_finish OfDevelopment)).
    destruct parent as [project|]; cbn [from_option]; [|exact Hdone].
    by apply backed_await.
  - assert (backed
              match outcome with
              | inl preview =>
                  dispatch (SET_FRONTEND_PREVIEW_SUCCESS preview)
                    {| store := store p; awaits := delete i (awaits p) |}
              | inr message =>
                  dispatch (SET_FRONTEND_PREVIEW_ERROR message)
                    {| store := store p; awaits := delete i (awaits p) |}
              end) as Hdone
      by (destruct outcome; by apply (backed_finish OfPreview)).
    destruct parent as [project|]; cbn [from_option]; [|exact Hdone].
    by apply backed_await.
  - destruct outcome; by apply (backed_finish OfDeployment).
  - by apply backed_related_preview.
  - by apply backed_related_deployment.
Qed.

Lemma backed_step p ev :
  by_the_loaders ev = true → backed p → backed (page_step p ev).
Proof.
  intros Hev Hbacked. destruct ev as [id|id|id|id|i outcome|action]; cbn [page_step].
  - by apply backed_loadProject.
  - by apply backed_start_development.
  - by apply backed_start_preview.
  - by apply backed_start_deployment.
  - destruct (awaits p !! i) as [a|] eqn:Hi; [|done]. by apply backed_resolve.
  - apply backed_dispatch; [|done]. by apply negb_true_iff.
Qed.

Lemma backed_run events : ∀ p,
  forallb by_the_loaders events = true → backed p → backed (page_run events p).
Proof.
  induction events as [|ev events IH]; intros p Hevents Hbacked; [done|].
  cbn [forallb] in Hevents. apply andb_true_iff in Hevents as [Hev Hevents].
  apply IH; [done|]. by apply backed_step.
Qed.

Lemma backed_initial : backed initial_pages.
Proof. by intros []. Qed.

Lemma backed_settled p : backed p → awaits p = [] → settled (store p).
Proof.
  intros Hbacked Hnone. unfold settled.
  pose proof (Hbacked OfProject ltac:(done)) as H1.
  pose proof (Hbacked OfDevelopment ltac:(done)) as H2.
  pose proof (Hbacked OfPreview ltac:(done)) as H3.
  pose proof (Hbacked OfDeployment ltac:(done)) as H4.
  rewrite Hnone in *. cbn [flag fmap list_fmap] in *.
  repeat split; apply not_true_is_false; intros Hflag.
  - by apply H1, elem_of_nil in Hflag.
  - by apply H2, elem_of_nil in Hflag.
  - by apply H3, elem_of_nil in Hflag.
  - by apply H4, elem_of_nil in Hflag.
Qed.

(** The loaders of the related data leave the current project alone. *)
Lemma loadProjectRelatedData_current project p :
  currentProject (store (loadProjectRelatedData project p)) = currentProject (store p)
  ∧ currentProjectError (store (loadProjectRelatedData project p))
    = currentProjectError (store p).
Proof.
  unfold loadProjectRelatedData, related_preview, related_deployment.
  repeat case_match; done.
Qed.

(** X12. Loading flags under interleaving. The loaders are async: between
    the start of a call and its completion, and between the return of a
    loader and the function that awaits it, other loaders are called, other
    calls complete in any order, and handlers and pages dispatch. In every
    such run from the initial state in which only the loaders dispatch the
    four loading actions, a loading flag (of the current project, the
    development status, the frontend preview, the deployment status) is
    raised only while a call of its kind is under way; so once no call is
    under way no flag is raised, whatever each call answered. When a call
    of [getProject] completes with a project, the current project is that
    project and its error is cleared, also after the start of the loaders
    of the related data; when it fails, the error is the failure's message
    and the current project stays what it was at that moment. *)
Theorem loading_flags_are_backed (events : list PageEvent) :
  forallb by_the_loaders events = true →
  let p := page_run events initial_pages in
  (∀ k, flag k (store p) = true → Some k ∈ kind_of <$> awaits p)
  ∧ (awaits p = [] → settled (store p))
  ∧ (∀ i projectId outcome,
       awaits p !! i = Some (AwaitProject projectId) →
       let p' := page_step p (Completes i outcome) in
       match outcome with
       | inl project =>
           currentProject (store p') = Some project
           ∧ currentProjectError (store p') = None
       | inr message =>
           currentProject (store p') = currentProject (store p)
           ∧ currentProjectError (store p') = Some message
       end).
Proof.
  intros Hevents p.
  assert (backed p) as Hbacked by (apply backed_run; [done|apply backed_initial]).
  split; [|split].
  - intros k. by apply Hbacked.
  - by apply backed_settled.
  - intros i projectId outcome Hi p'. unfold p'. cbn [page_step]. rewrite Hi.
    cbn [resolve]. destruct outcome as [project|message]; [|done].
    destruct (loadProjectRelatedData_current project
                (dispatch (SET_CURRENT_PROJECT_SUCCESS project)
                   {| store := store p; awaits := delete i (awaits p) |}))
      as [-> ->].
    done.
Qed.

Lemma loading_flags_are_backed_witness :
  forallb by_the_loaders monitor_events = true
  ∧ awaits (page_run monitor_events initial_pages) = []
  ∧ settled (store (page_run monitor_events initial_pages))
  ∧ developmentStatus (store (page_run monitor_events initial_pages))
    = Some {[ "stage" := "tests" ]}.
Proof.
  assert (forallb by_the_loaders monitor_events = true) as Hevents by reflexivity.
  assert (awaits (page_run monitor_events initial_pages) = []) as Hnone
    by (vm_compute; reflexivity).
  split; [exact Hevents|]. split; [exact Hnone|].
  split; [|vm_compute; reflexivity].
  exact (proj1 (proj2 (loading_flags_are_backed monitor_events Hevents)) Hnone).
Defined.

(** A flag can be down while a loader of its kind is still under way: the
    first of two calls of [loadProject] to complete lowers it. *)
Example flag_down_while_loading :
  let p := page_run [CallLoadProject "p1"; CallLoadProject "p2";
                     Completes 0 (inr "timeout")] initial_pages in
  awaits p = [AwaitProject "p2"] ∧ currentProjectLoading (store p) = false.
Proof. vm_compute. done. Qed.

(** *** Selecting *)

(** Past its test and its frames, [selectProject] is a dispatch followed
    by a call of [loadProject]. *)
Lemma selectProject_events seen projectId p c :
  projectId ≠ selectedProjectId seen →
  (selectProject seen projectId p c).1
  = page_run (if truthy projectId
              then [Dispatches (SET_SELECTED_PROJECT projectId);
                    CallLoadProject (default "" projectId)]
              else [Dispatches (SET_SELECTED_PROJECT projectId);
                    Dispatches CLEAR_CURRENT_PROJECT]) p.
Proof.
  intros Hne. unfold selectProject. rewrite bool_decide_eq_false_2 by done.
  by destruct (truthy projectId).
Qed.

(** X10. The subscription follows the selection that the render saw.
    [selectProject] compares the id asked for with [state.selectedProjectId]
    of the render that created it ([seen]), not with the store as it is
    when it runs. If the two are equal it does nothing: no frame, and the
    selection in the store stays what it is, even if that is another id.
    Otherwise the selection becomes the id asked for and, if the socket is
    open, the frames sent are an unsubscribe for the project the render saw
    selected (if any) and then a subscribe for the new one (if any), in
    this order and nothing else; if the socket is not open nothing is sent.
    So when the render is up to date ([seen] has the selection of the
    store) the selected id afterwards is always the one asked for and the
    unsubscribe names the project selected before. *)
Theorem subscription_follows_selection
    (seen : State) (projectId : option string) (p : Pages) (c : Client) :
  let after := selectProject seen projectId p c in
  selectedProjectId (store after.1)
  = (if bool_decide (projectId = selectedProjectId seen)
     then selectedProjectId (store p) else projectId)
  ∧ sent after.2
    = sent c
      ++ (if current_socket_open c
             && negb (bool_decide (projectId = selectedProjectId seen))
          then selection_frames (selectedProjectId seen) projectId
          else [])
  ∧ (selectedProjectId seen = selectedProjectId (store p) →
     selectedProjectId (store after.1) = projectId).
Proof.
  cbn zeta.
  assert (selectedProjectId (store (selectProject seen projectId p c).1)
          = (if bool_decide (projectId = selectedProjectId seen)
             then selectedProjectId (store p) else projectId)) as Hselected.
  { unfold selectProject. case_bool_decide; [done|]. by destruct (truthy projectId). }
  split; [exact Hselected|]. split.
  2:{ intros Hfresh. rewrite Hselected. case_bool_decide; congruence. }
  unfold selectProject.
  case_bool_decide as Hsame.
  { by rewrite andb_false_r, app_nil_r. }
  rewrite andb_true_r. unfold selection_frames.
  pose (c1 := if truthy (selectedProjectId seen)
              then (unsubscribeFromProject (default "" (selectedProjectId seen)) c).2
              else c).
  assert (sent c1
          = sent c
            ++ (if current_socket_open c
                then (if truthy (selectedProjectId seen)
                      then [{[ "type" := "unsubscribe_project";
                               "project_id" := default "" (selectedProjectId seen) ]}]
                      else [])
                else [])
          ∧ current_socket_open c1 = current_socket_open c) as [Hsent1 Hopen1].
  { unfold c1. destruct (truthy (selectedProjectId seen)).
    - apply sendMessage_sent.
    - by destruct (current_socket_open c); rewrite app_nil_r. }
  fold c1. destruct (truthy projectId) eqn:Hnew.
  - cbn [fst snd].
    destruct (sendMessage_sent
                {[ "type" := "subscribe_project"; "project_id" := default "" projectId ]}
                c1) as [Hsent2 _].
    unfold subscribeToProject. rewrite Hsent2, Hsent1, Hopen1.
    destruct (current_socket_open c); by rewrite <- ?app_assoc, ?app_nil_r.
  - cbn [fst snd]. rewrite Hsent1.
    destruct (current_socket_open c); by rewrite ?app_nil_r.
Qed.

(** From a stale render the old project is never unsubscribed: the store
    has p1 selected, the render saw no selection, and selecting p2 sends
    the subscribe alone. *)
Example stale_render_keeps_subscription :
  let seen := initialState in
  let p := dispatch (SET_SELECTED_PROJECT (Some "p1")) initial_pages in
  sent (selectProject seen (Some "p2") p connected_client).2
  = sent connected_client ++ [{[ "type" := "subscribe_project"; "project_id" := "p2" ]}].
Proof. vm_compute. done. Qed.

(** *** Chatting *)

Section Chat.
Variable blank : string → bool.
Variable chatWithDocumentAI : string → string → string + string.

(** X11. A chat message that is not blank goes out by exactly one way: as
    an [ai_chat] frame for the development AI when the socket is open, and
    otherwise by the HTTP call. The chat history gains the user's line in
    both cases, and the assistant's reply only on the HTTP way, when the
    call succeeds; the input is cleared. *)
Theorem chat_uses_one_transport (projectId : string) (m : Monitor) (c : Client) :
  blank (chatMessage m) = false →
  sent (handleSendChatMessage blank chatWithDocumentAI projectId m c).2
  = sent c
    ++ (if current_socket_open c
        then [{[ "type" := "ai_chat"; "project_id" := projectId;
                 "content" := chatMessage m; "ai_type" := "development" ]}]
        else [])
  ∧ chatHistory (handleSendChatMessage blank chatWithDocumentAI projectId m c).1
    = chatHistory m ++ [{| role := "user"; content := chatMessage m |}]
      ++ (if current_socket_open c then []
          else match chatWithDocumentAI projectId (chatMessage m) with
               | inl reply => [{| role := "assistant"; content := reply |}]
               | inr _ => []
               end)
  ∧ chatMessage (handleSendChatMessage blank chatWithDocumentAI projectId m c).1 = "".
Proof.
  intros Hblank. unfold handleSendChatMessage. rewrite Hblank.
  unfold sendAIChat. cbn [default].
  destruct (sendMessage_sent
              {[ "type" := "ai_chat"; "project_id" := projectId;
                 "content" := chatMessage m; "ai_type" := "development" ]} c)
    as [Hsent _].
  destruct (current_socket_open c) eqn:Hopen.
  - destruct (sendMessage_open
                {[ "type" := "ai_chat"; "project_id" := projectId;
                   "content" := chatMessage m; "ai_type" := "development" ]} c Hopen)
      as (Hok & _).
    destruct (sendMessage _ c) as [success c']. simpl in *. subst success.
    simpl. by rewrite ?app_nil_r.
  - rewrite sendMessage_closed in * by done. cbn [fst snd] in *.
    destruct (chatWithDocumentAI projectId (chatMessage m)); simpl;
      by rewrite <- ?app_assoc, ?app_nil_r.
Qed.

End Chat.

Lemma chat_uses_one_transport_witness :
  chatHistory
    (handleSendChatMessage (λ text, String.eqb text "") (λ _ _, inl "on it")
       "p1" sample_monitor initial_client).1
  = [{| role := "user"; content := "status?" |};
     {| role := "assistant"; content := "on it" |}].
Proof.
  exact (proj1 (proj2 (chat_uses_one_transport (λ text, String.eqb text "")
                         (λ _ _, inl "on it") "p1" sample_monitor initial_client
                         eq_refl))).
Defined.

End ProjectPagesFacts.

(** ** The HTTP client *)

Module ApiClientFacts.
Import ApiClient.

Lemma truthy_Some s : truthy (Some s) = negb (String.eqb s "").
Proof. done. Qed.

Lemma truthy_not_empty v : truthy v = true → default "" v ≠ "".
Proof.
  destruct v as [s|]; [|done]. simpl.
  destruct (String.eqb_spec s ""); done.
Qed.

Lemma request_interceptor_no_token store headers :
  store !! "authToken" = None → request_interceptor store headers = headers.
Proof. intros Hnone. unfold request_interceptor. by rewrite Hnone. Qed.

(** X19. The token round trip: [getAuthToken] returns what [setAuthToken]
    stored and nothing after [clearAuthToken]. A request gets the header
    [Authorization: Bearer <token>] exactly when a token that is not empty
    is stored; with no token, or an empty one, the headers go out as they
    are, and no other header is ever touched. *)
Theorem token_round_trip (token : string) (store : Storage) (headers : Headers) :
  getAuthToken (setAuthToken token store) = Some token
  ∧ getAuthToken (clearAuthToken store) = None
  ∧ request_interceptor (clearAuthToken store) headers = headers
  ∧ request_interceptor (setAuthToken token store) headers
    = (if String.eqb token "" then headers
       else <["Authorization" := String.append "Bearer " token]> headers)
  ∧ ∀ name, name ≠ "Authorization" →
      request_interceptor store headers !! name = headers !! name.
Proof.
  split; [apply lookup_insert_eq|]. split; [apply lookup_delete_eq|].
  split; [apply request_interceptor_no_token, lookup_delete_eq|]. split.
  - unfold request_interceptor, setAuthToken. rewrite lookup_insert_eq. simpl.
    by destruct (String.eqb token "").
  - intros name Hname. unfold request_interceptor.
    destruct (truthy (store !! "authToken")); [|done].
    by rewrite lookup_insert_ne.
Qed.

(** X20. A response with status 401 signs the user out: the stored token
    is removed, the page is sent to [/login], the error is the fixed
    authentication message whatever the server said, and the next request
    carries no token. *)
Theorem unauthorized_signs_out
    (error : AxiosError) (browser : Browser) (headers : Headers) :
  status <$> response error = Some 401 →
  getAuthToken (localStorage (response_rejected error browser).1) = None
  ∧ location (response_rejected error browser).1 = "/login"
  ∧ (response_rejected error browser).2 = Error "认证失败，请重新登录"
  ∧ request_interceptor (localStorage (response_rejected error browser).1) headers
    = headers.
Proof.
  intros H401. unfold response_rejected. rewrite bool_decide_eq_true_2 by done.
  simpl. split; [apply lookup_delete_eq|]. split; [done|]. split; [done|].
  apply request_interceptor_no_token, lookup_delete_eq.
Qed.

Lemma unauthorized_signs_out_witness :
  getAuthToken
    (localStorage
       (response_rejected
          {| response := Some {| status := 401; detail := of_text "token expired" |};
             code := None; message := Some "Request failed with status code 401" |}
          {| localStorage := {[ "authToken" := "t0" ]}; location := "/projects" |}).1)
  = None.
Proof.
  exact (proj1 (unauthorized_signs_out
                  {| response := Some {| status := 401; detail := of_text "token expired" |};
                     code := None;
                     message := Some "Request failed with status code 401" |}
                  {| localStorage := {[ "authToken" := "t0" ]}; location := "/projects" |}
                  ∅ eq_refl)).
Defined.

(** X21. The message of a rejection. Every failed request is rejected
    with a plain [Error]. Its message is empty in one case only: the status
    is neither 401 nor 500 or more, the code is not [NETWORK_ERROR], and the
    [detail] of the body is truthy with an empty text, as an empty array
    is. [handleApiError] returns the message of the rejection when it is
    not empty, and its own fallback text in that one case. Except on status
    401, the rejection leaves the storage and the address alone. *)
Theorem rejection_message_or_fallback (error : AxiosError) (browser : Browser) :
  ∃ text,
    (response_rejected error browser).2 = Error text
    ∧ (text = ""
       ↔ status <$> response error ≠ Some 401
         ∧ from_option (λ r, 500 <=? status r) false (response error) = false
         ∧ code error ≠ Some "NETWORK_ERROR"
         ∧ ∃ r, response error = Some r
                ∧ is_truthy (detail r) = true ∧ as_text (detail r) = "")
    ∧ handleApiError (response_rejected error browser).2
      = of_text (if String.eqb text "" then "操作失败，请稍后重试" else text)
    ∧ (status <$> response error ≠ Some 401 →
       (response_rejected error browser).1 = browser).
Proof.
  assert (∀ text, handleApiError (Error text)
                  = of_text (if String.eqb text "" then "操作失败，请稍后重试" else text))
    as Hhandle.
  { intros text. unfold handleApiError. simpl. by destruct (String.eqb text ""). }
  unfold response_rejected.
  case_bool_decide as H401.
  { eexists. split; [done|]. split; [|split; [apply Hhandle|done]].
    split; [done|]. by intros [? _]. }
  destruct (from_option _ false (response error)) eqn:H500.
  { eexists. split; [done|]. split; [|split; [apply Hhandle|done]].
    split; [done|]. by intros (_ & ? & _). }
  case_bool_decide as Hcode.
  { eexists. split; [done|]. split; [|split; [apply Hhandle|done]].
    split; [done|]. by intros (_ & _ & ? & _). }
  eexists. split; [done|]. split; [|split; [apply Hhandle|done]].
  cbn [snd]. unfold detail_of.
  destruct (response error) as [r|] eqn:Hr; cbn [from_option].
  - destruct (is_truthy (detail r)) eqn:Hd.
    + split.
      * intros Hempty. repeat split; try done. by exists r.
      * by intros (_ & _ & _ & r' & [= <-] & _ & Hempty).
    + split.
      * intros Hempty. exfalso.
        destruct (truthy (message error)) eqn:Hm; [|done].
        by apply truthy_not_empty in Hm.
      * intros (_ & _ & _ & r' & [= <-] & Htrue & _). congruence.
  - cbn [is_truthy undefined]. split.
    + intros Hempty. exfalso.
      destruct (truthy (message error)) eqn:Hm; [|done].
      by apply truthy_not_empty in Hm.
    + by intros (_ & _ & _ & r' & ? & _).
Qed.

(** A 422 whose body is [{"detail": []}]: the rejection has an empty
    message and [handleApiError] shows its fallback. *)
Example empty_array_detail :
  let error := {| response := Some {| status := 422; detail := empty_array |};
                  code := Some "ERR_BAD_REQUEST";
                  message := Some "Request failed with status code 422" |} in
  let browser := {| localStorage := ∅; location := "/projects" |} in
  (response_rejected error browser).2 = Error ""
  ∧ handleApiError (response_rejected error browser).2
    = of_text "操作失败，请稍后重试".
Proof. done. Qed.

(** X22. [logout] always signs out locally: whether the request succeeds
    or fails, the token is gone afterwards and the next request carries
    none. *)
Theorem logout_always_clears {A : Type}
    (outcome : A + AxiosError) (browser : Browser) (headers : Headers) :
  getAuthToken (localStorage (logout outcome browser).1) = None
  ∧ request_interceptor (localStorage (logout outcome browser).1) headers = headers.
Proof.
  assert (getAuthToken (localStorage (logout outcome browser).1) = None) as Hnone.
  { unfold logout. destruct (through_client outcome browser) as [b r]. simpl.
    apply lookup_delete_eq. }
  split; [done|]. by apply request_interceptor_no_token.
Qed.

(** X23. The token after [login]: the [access_token] of the response when
    it has one that is not empty; the token stored before when the response
    has none, or when the request fails; and no token when the request fails
    with status 401. *)
Theorem login_token (outcome : option string + AxiosError) (browser : Browser) :
  getAuthToken (localStorage (login outcome browser).1)
  = match outcome with
    | inl access_token =>
        if truthy access_token then access_token
        else getAuthToken (localStorage browser)
    | inr error =>
        if bool_decide (status <$> response error = Some 401) then None
        else getAuthToken (localStorage browser)
    end.
Proof.
  unfold login, through_client. destruct outcome as [access_token|error].
  - destruct (truthy access_token) eqn:Htoken; [|done]. simpl.
    destruct access_token as [token|]; [|done]. apply lookup_insert_eq.
  - unfold response_rejected. case_bool_decide; simpl; [apply lookup_delete_eq|].
    destruct (from_option _ false (response error)); [done|].
    by case_bool_decide.
Qed.

End ApiClientFacts.
